(** * mux: a development-time multi-application HTTP front door

  Shallow embedding of the supervisor of [e4mi/mux] (the Go program with the
  file watcher, together with its older sibling [main.go]) and the
  properties of the specification that were checked against it.

  Go strings are byte strings and are modelled by [string]; the registry
  [apps] is a [gmap]; processes, watchers and the registry mutex live in an
  explicit [State]; everything the operating system decides (file system,
  port binding, process creation, readiness of the child) is read from an
  [Env] record. *)

From Stdlib Require Import ZArith Ascii String Bool List Lia DecimalString.
From stdpp Require Import gmap strings list.

Local Open Scope Z_scope.

(** ** The parts of Go's [strings] package the program uses *)

Module GoStrings.

Definition len (s : string) : nat := String.length s.

(** [s[i:j]] *)
Definition slice (s : string) (i j : nat) : string :=
  String.substring i (j - i) s.

(** [len(s) >= len(prefix) && s[:len(prefix)] == prefix] *)
Definition HasPrefix (s prefix : string) : bool :=
  (len prefix <=? len s)%nat && String.eqb (slice s 0 (len prefix)) prefix.

(** [len(s) >= len(suffix) && s[len(s)-len(suffix):] == suffix] *)
Definition HasSuffix (s suffix : string) : bool :=
  (len suffix <=? len s)%nat &&
  String.eqb (slice s (len s - len suffix) (len s)) suffix.

Definition TrimSuffix (s suffix : string) : string :=
  if HasSuffix s suffix then slice s 0 (len s - len suffix) else s.

(** [strings.Split(s, sep)] for a separator of one byte (the program only
    splits on ":" and on the path separator). *)
Fixpoint Split (s : string) (sep : ascii) : list string :=
  match s with
  | EmptyString => [EmptyString]
  | String c s' =>
      if Ascii.eqb c sep then EmptyString :: Split s' sep
      else match Split s' sep with
           | f :: fs => String c f :: fs
           | [] => [String c EmptyString]
           end
  end.

(** [strings.Join(elems, sep)] *)
Fixpoint Join (elems : list string) (sep : string) : string :=
  match elems with
  | [] => EmptyString
  | [e] => e
  | e :: es => e +:+ sep +:+ Join es sep
  end.

Definition bytes (l : list nat) : string :=
  String.string_of_list_ascii (map ascii_of_nat l).

(** The UTF-8 encodings of the runes for which [unicode.IsSpace] holds:
    the six ASCII ones, U+0085, U+00A0, U+1680, U+2000..U+200A, U+2028,
    U+2029, U+202F, U+205F and U+3000. *)
Definition spaceRunes : list string :=
  map bytes
    [ [9]; [10]; [11]; [12]; [13]; [32];
      [194; 133]; [194; 160]; [225; 154; 128];
      [226; 128; 128]; [226; 128; 129]; [226; 128; 130]; [226; 128; 131];
      [226; 128; 132]; [226; 128; 133]; [226; 128; 134]; [226; 128; 135];
      [226; 128; 136]; [226; 128; 137]; [226; 128; 138];
      [226; 128; 168]; [226; 128; 169]; [226; 128; 175];
      [226; 129; 159]; [227; 128; 128] ]%nat.

(** Width of the white-space rune the string starts with, if any. *)
Definition leadingSpace (s : string) : option nat :=
  len <$> List.find (fun r => HasPrefix s r) spaceRunes.

(** Width of the white-space rune the string ends with, if any. *)
Definition trailingSpace (s : string) : option nat :=
  len <$> List.find (fun r => HasSuffix s r) spaceRunes.

Fixpoint trimLeft (fuel : nat) (s : string) : string :=
  match fuel with
  | O => s
  | S k => match leadingSpace s with
           | Some w => trimLeft k (slice s w (len s))
           | None => s
           end
  end.

Fixpoint trimRight (fuel : nat) (s : string) : string :=
  match fuel with
  | O => s
  | S k => match trailingSpace s with
           | Some w => trimRight k (slice s 0 (len s - w))
           | None => s
           end
  end.

(** [strings.TrimSpace]: every rune strips at least one byte, so [len s]
    rounds are enough on each side. *)
Definition TrimSpace (s : string) : string :=
  let l := trimLeft (len s) s in trimRight (len l) l.

End GoStrings.

Import GoStrings.


(** ** [path/filepath] on Unix *)

Module filepath.

(** The stack of path elements [Clean] keeps while it reads the elements of
    a path from left to right.  [out] is the stack, innermost element first.
    An empty element and "." are skipped; ".." removes the innermost element
    when there is one to remove, is dropped at the root of a rooted path and
    is kept in front of a relative one. *)
Fixpoint cleanElems (rooted : bool) (out : list string) (elems : list string)
  : list string :=
  match elems with
  | [] => rev out
  | e :: es =>
      if String.eqb e "" || String.eqb e "." then cleanElems rooted out es
      else if String.eqb e ".." then
        match out with
        | top :: out' =>
            if String.eqb top ".." then cleanElems rooted (e :: out) es
            else cleanElems rooted out' es
        | [] =>
            if rooted then cleanElems rooted [] es
            else cleanElems rooted [e] es
        end
      else cleanElems rooted (e :: out) es
  end.

(** [filepath.Clean] *)
Definition Clean (path : string) : string :=
  match path with
  | EmptyString => "."
  | String c _ =>
      let rooted := Ascii.eqb c "/" in
      let body := GoStrings.Join (cleanElems rooted [] (Split path "/")) "/" in
      if rooted then "/" +:+ body
      else if String.eqb body "" then "." else body
  end.

(** [filepath.Join]: leading empty elements are skipped, the rest is joined
    with the separator and cleaned. *)
Fixpoint Join (elem : list string) : string :=
  match elem with
  | [] => ""
  | e :: es =>
      if String.eqb e "" then Join es else Clean (GoStrings.Join elem "/")
  end.

End filepath.


(** ** Router: from the Host header to the application name *)

(** [strings.Split(r.Host, ":")[0]]; [Split] never returns an empty slice. *)
Definition hostField (host : string) : string := List.hd "" (Split host ":").

(** [handler], the computation of [name] *)
Definition appName (domain host : string) : string :=
  let name := TrimSuffix (TrimSuffix (hostField host) domain) "." in
  if String.eqb name "" then "www" else name.

(** The routing rule in the words of the specification. *)

Definition noByte (c : ascii) (h : string) : Prop :=
  forall a b, h <> a +:+ String c b.

(** [stripped suffix s r]: [r] is [s] without one trailing occurrence of
    [suffix], or [s] itself when [s] does not end with [suffix]. *)
Inductive stripped (suffix : string) : string -> string -> Prop :=
| stripped_one a : stripped suffix (a +:+ suffix) a
| stripped_none s : (forall a, s <> a +:+ suffix) -> stripped suffix s s.

Inductive routesTo (domain host : string) : string -> Prop :=
| routesTo_intro h rest a b :
    host = h +:+ rest ->
    noByte ":" h ->
    rest = "" \/ (exists r, rest = String ":" r) ->
    stripped domain h a ->
    stripped "." a b ->
    routesTo domain host (if decide (b = "") then "www" else b).

(** ** Procfile reader *)

Definition CR : string := String (ascii_of_nat 13) "".
Definition LF : ascii := ascii_of_nat 10.

(** [dropCR] of [bufio] *)
Definition dropCR (data : string) : string :=
  if HasSuffix data CR then slice data 0 (len data - 1) else data.

(** The tokens [bufio.Scanner] yields with its default split function
    [ScanLines]: the text up to each newline without a trailing carriage
    return, and a last line without newline if it is not empty.  [cur] is
    the line read so far.  (The scanner's limit of 64 KiB per line is not
    modelled.) *)
Fixpoint scanLines (cur data : string) : list string :=
  match data with
  | EmptyString => if String.eqb cur "" then [] else [dropCR cur]
  | String c rest =>
      if Ascii.eqb c LF then dropCR cur :: scanLines "" rest
      else scanLines (cur +:+ String c "") rest
  end.

(** The scan loop of [start]: the first line with the prefix decides,
    [cmdStr] stays empty when there is none. *)
Fixpoint webCommand (lines : list string) : string :=
  match lines with
  | [] => ""
  | l :: ls =>
      if HasPrefix l "web:" then TrimSpace (slice l 4 (len l))
      else webCommand ls
  end.

(** ** The world outside the program *)

Inductive statResult := StatDir | StatFile | StatNotExist | StatError.

(** The pattern set compiled by the library go-gitignore, by the one method
    the program calls. *)
Record GitIgnore := { MatchesPath : string -> bool }.

(** A file tree, as [filepath.WalkDir] sees it: every entry has its name,
    a directory has its entries in the order [os.ReadDir] lists them. *)
#[warnings="-register-all"]
Inductive node :=
| File (nm : string)
| Dir (nm : string) (entries : list node).

(** What the operating system answers.  The answers are independent of each
    other: nothing is assumed about the files staying the same between two
    calls. *)
Record Env := {
  (** [os.Stat] *)
  stat : string -> statResult;
  (** [os.Open] and reading the file: its content, or the text of the error *)
  openFile : string -> string + string;
  (** [ignore.CompileIgnoreFile]: [None] is the nil pattern set of an
      unreadable file *)
  compileIgnoreFile : string -> option GitIgnore;
  (** [net.Listen("tcp", "127.0.0.1:0")]: the port bound, [None] on error *)
  listen : option Z;
  (** [cmd.Start] in a directory with a command and a port: [None] when the
      child runs, the text of the error otherwise *)
  startCmd : string -> string -> Z -> option string;
  (** [net.DialTimeout] to a port at a time: whether it connects, and the
      milliseconds it takes *)
  dial : Z -> Z -> bool * N;
  (** the tree [filepath.WalkDir] finds at a path, [None] when [os.Lstat]
      fails *)
  lstat : string -> option node
}.

(** ** Records and state *)

Record appInfo := {
  name : string;
  dir : string;
  (** the port of the reverse proxy's target, [http://127.0.0.1:p] *)
  p : Z;
  (** the child, by its process id *)
  c : nat;
  (** [lastUsed], in milliseconds *)
  t : Z;
  watcher : option nat;
  ig : option GitIgnore
}.

(** The global variables of the program and the resources it owns.  Records
    are stored in [apps] by value: the program shares them by pointer, but
    the only field written after a record is published is [t], and [t] is
    only accessed through [apps]. *)
Record State := {
  apps : gmap string appInfo;
  (** [mu] is locked *)
  mu : bool;
  (** [time.Now()], in milliseconds *)
  clock : Z;
  (** the children that run *)
  procs : gset nat;
  (** the open watchers and the directories each of them observes *)
  watchers : gmap nat (gset string);
  (** every child started so far, with its working directory; the length of
      this list is the next process id *)
  spawned : list (string * nat);
  nextWatcher : nat
}.

Record Config := {
  root : string;
  domain : string;
  idleTTL : Z
}.

Definition setApps (f : gmap string appInfo -> gmap string appInfo) (s : State)
  : State :=
  {| apps := f (apps s); mu := mu s; clock := clock s; procs := procs s;
     watchers := watchers s; spawned := spawned s;
     nextWatcher := nextWatcher s |}.

Definition setMu (b : bool) (s : State) : State :=
  {| apps := apps s; mu := b; clock := clock s; procs := procs s;
     watchers := watchers s; spawned := spawned s;
     nextWatcher := nextWatcher s |}.

Definition setClock (n : Z) (s : State) : State :=
  {| apps := apps s; mu := mu s; clock := n; procs := procs s;
     watchers := watchers s; spawned := spawned s;
     nextWatcher := nextWatcher s |}.

Definition setProcs (f : gset nat -> gset nat) (s : State) : State :=
  {| apps := apps s; mu := mu s; clock := clock s; procs := f (procs s);
     watchers := watchers s; spawned := spawned s;
     nextWatcher := nextWatcher s |}.

Definition setWatchers
  (f : gmap nat (gset string) -> gmap nat (gset string)) (s : State) : State :=
  {| apps := apps s; mu := mu s; clock := clock s; procs := procs s;
     watchers := f (watchers s); spawned := spawned s;
     nextWatcher := nextWatcher s |}.

(** ** Computations over the state

    A computation returns, panics, or blocks for ever on [mu.Lock()]; in
    the last two cases the state it leaves behind is kept. *)

Inductive outcome (A : Type) : Type :=
| Ret (a : A) (s : State)
| Panic (s : State)
| Hang (s : State).

Arguments Ret {A} a s.
Arguments Panic {A} s.
Arguments Hang {A} s.

Definition M (A : Type) : Type := State -> outcome A.

Definition ret {A} (a : A) : M A := fun s => Ret a s.

Definition bind {A B} (m : M A) (k : A -> M B) : M B :=
  fun s => match m s with
           | Ret a s' => k a s'
           | Panic s' => Panic s'
           | Hang s' => Hang s'
           end.

#[global] Instance M_ret : MRet M := @ret.
#[global] Instance M_bind : MBind M := fun A B k m => bind m k.

Definition get : M State := fun s => Ret s s.
Definition modify (f : State -> State) : M unit := fun s => Ret tt (f s).
Definition panic {A} : M A := fun s => Panic s.

(** [for _, x := range xs { body x }] *)
Fixpoint forEach {A} (xs : list A) (body : A -> M unit) : M unit :=
  match xs with
  | [] => ret tt
  | x :: xs' => body x ;; forEach xs' body
  end.

(** [mu.Lock()]: [sync.Mutex] is not reentrant.  Operations run one after
    the other in this model, so a mutex that is held when an operation asks
    for it is held by the operation itself or by one that did not finish,
    and is never released. *)
Definition Lock : M unit :=
  fun s => if mu s then Hang s else Ret tt (setMu true s).

(** [mu.Unlock()]; unlocking a free mutex is a fatal error. *)
Definition Unlock : M unit :=
  fun s => if mu s then Ret tt (setMu false s) else Panic s.

Definition Now : M Z := fun s => Ret (clock s) s.

Definition Sleep (d : Z) : M unit := modify (fun s => setClock (clock s + d) s).

(** ** Errors and responses *)

(** The errors [start] returns: an error of the operating system, by its
    text; the error made from "NO web: in %s/Procfile" and the directory;
    and the error of [waitPort], made from "TIMEOUT %s" and the address. *)
Inductive error :=
| OSError (text : string)
| NoWeb (d : string)
| Timeout (port : Z).

Definition decimal (n : Z) : string := NilZero.string_of_int (Z.to_int n).

(** [err.Error()] *)
Definition errorText (e : error) : string :=
  match e with
  | OSError text => text
  | NoWeb d => "NO web: in " +:+ d +:+ "/Procfile"
  | Timeout port => "TIMEOUT 127.0.0.1:" +:+ decimal port
  end.


(** The Procfile reader, the first part of [start]: from the answer of
    [os.Open] for [dir/Procfile] to the command, or to the error [start]
    returns. *)
Definition procfile (opened : string + string) (d : string) : error + string :=
  match opened with
  | inr text => inl (OSError text)
  | inl content =>
      let cmdStr := webCommand (scanLines "" content) in
      if String.eqb cmdStr "" then inl (NoWeb d) else inr cmdStr
  end.


(** What the handler answers: [http.NotFound], [http.FileServer] on a
    directory, [http.Error] with status 500 and a body, or the reverse proxy
    to a port. *)
Inductive response :=
| NotFound
| FileServer (d : string)
| Error500 (body : string)
| Proxy (port : Z).

(** ** Port allocator and readiness probe *)

(** [freePort]: the error of [net.Listen] is discarded, and calling [Addr]
    on the nil listener panics. *)
Definition freePort (env : Env) : M Z :=
  match listen env with
  | Some port => mret port
  | None => panic
  end.

(** The loop of [waitPort]: dial, and sleep 100 ms after a failure, while
    the deadline is ahead. *)
Fixpoint waitPortLoop (fuel : nat) (env : Env) (port deadline : Z) : M bool :=
  match fuel with
  | O => mret false
  | S k =>
      n ← Now;
      if n <? deadline then
        let '(ok, d) := dial env port n in
        Sleep (Z.of_N d);;
        if ok then mret true
        else Sleep 100;; waitPortLoop k env port deadline
      else mret false
  end.

(** [waitPort(port, timeout) == nil].  Every failed round takes 100 ms or
    more, so [timeout / 100 + 1] rounds reach the deadline. *)
Definition waitPort (env : Env) (port timeout : Z) : M bool :=
  n ← Now;
  waitPortLoop (S (Z.to_nat (timeout / 100))) env port (n + timeout).

(** ** Ignore matcher and recursive watcher *)

(** [matchInverted] *)
Definition matchInverted (path : string) (ig : option GitIgnore) : bool :=
  match ig with
  | None => false
  | Some g =>
      let parts := Split path "/" in
      let fix loop (parts : list string) : bool :=
        match parts with
        | [] => MatchesPath g path
        | part :: rest =>
            if HasPrefix part "." && negb (MatchesPath g path) then false
            else loop rest
        end in
      loop parts
  end.

(** The directories [addRecursive] hands to [w.Add] when [WalkDir] visits a
    node at [path]: a directory whose name begins with "." is skipped with
    all that is below it. *)
Fixpoint walkDirs (path : string) (n : node) : list string :=
  match n with
  | File _ => []
  | Dir nm entries =>
      if HasPrefix nm "." then []
      else path ::
           (fix children (es : list node) : list string :=
              match es with
              | [] => []
              | e :: es' =>
                  let nm1 := match e with File x => x | Dir x _ => x end in
                  walkDirs (filepath.Join [path; nm1]) e ++ children es'
              end) entries
  end.

(** [addRecursive(w, root)].  [w.Add] fails on a closed watcher, which ends
    the walk at its first directory; a root that [os.Lstat] does not find
    ends it as well.  Both errors are discarded by the callers. *)
Definition addRecursive (env : Env) (w : nat) (rootPath : string) : M unit :=
  modify (fun s =>
    match watchers s !! w, lstat env rootPath with
    | Some ds, Some n =>
        setWatchers <[w := ds ∪ list_to_set (walkDirs rootPath n)]> s
    | _, _ => s
    end).

(** [watcher.Close()]; closing twice does nothing. *)
Definition closeWatcher (w : nat) : M unit :=
  modify (setWatchers (delete w)).

(** [app.c.Process.Kill()]; the error for a child that is gone is
    discarded. *)
Definition Kill (pid : nat) : M unit :=
  modify (setProcs (fun ps => ps ∖ {[pid]})).

(** [stopApp] *)
Definition stopApp (app : appInfo) : M unit :=
  Lock;;
  Kill (c app);;
  match watcher app with
  | Some w => closeWatcher w
  | None => panic
  end;;
  modify (setApps (delete (name app)));;
  Unlock.

(** The state [stopApp] leaves when the watcher of the record is [w]. *)
Definition stopped (app : appInfo) (w : nat) (s : State) : State :=
  {| apps := delete (name app) (apps s); mu := mu s; clock := clock s;
     procs := procs s ∖ {[c app]}; watchers := delete w (watchers s);
     spawned := spawned s; nextWatcher := nextWatcher s |}.


(** [fsnotify.NewWatcher()] *)
Definition NewWatcher : M nat :=
  fun s =>
    Ret (nextWatcher s)
      {| apps := apps s; mu := mu s; clock := clock s; procs := procs s;
         watchers := <[nextWatcher s := ∅]> (watchers s);
         spawned := spawned s; nextWatcher := S (nextWatcher s) |}.

(** [startWatcher], up to the start of the goroutine: the record with its
    pattern set and its watcher. *)
Definition startWatcher (env : Env) (app : appInfo) : M appInfo :=
  match watcher app with
  | Some w => closeWatcher w
  | None => mret tt
  end;;
  let g := compileIgnoreFile env (filepath.Join [dir app; ".watch"]) in
  w ← NewWatcher;
  addRecursive env w (dir app);;
  mret {| name := name app; dir := dir app; p := p app; c := c app;
          t := t app; watcher := Some w; ig := g |}.

Record Event := { Name : string; Op : Z }.

(** [fsnotify.Create] *)
Definition Create : Z := 1.

(** The goroutine of [startWatcher], for one event received from
    [watcher.Events]. *)
Definition onEvent (env : Env) (app : appInfo) (w : nat) (event : Event)
  : M unit :=
  (if String.eqb (Name event) (filepath.Join [dir app; ".watch"])
   then stopApp app else mret tt);;
  (if Z.land (Op event) Create =? Create then
     match stat env (Name event) with
     | StatDir =>
         if matchInverted (Name event) (ig app)
         then addRecursive env w (Name event) else mret tt
     | _ => mret tt
     end
   else mret tt);;
  (if matchInverted (Name event) (ig app) then stopApp app else mret tt).

(** The goroutine receives events until the channel is closed, which
    [watcher.Close()] does. *)
Definition deliver (env : Env) (app : appInfo) (event : Event) : M unit :=
  match watcher app with
  | Some w =>
      s ← get;
      if decide (is_Some (watchers s !! w)) then onEvent env app w event
      else mret tt
  | None => mret tt
  end.

(** ** App launcher *)

(** [cmd.Start()] succeeded: the child runs under a fresh process id. *)
Definition spawn (d : string) : M nat :=
  fun s =>
    let pid := length (spawned s) in
    Ret pid
      {| apps := apps s; mu := mu s; clock := clock s;
         procs := procs s ∪ {[pid]}; watchers := watchers s;
         spawned := (d, pid) :: spawned s; nextWatcher := nextWatcher s |}.

(** [start] *)
Definition start (cfg : Config) (env : Env) (nm : string)
  : M (error + appInfo) :=
  let d := filepath.Join [root cfg; nm] in
  match procfile (openFile env (filepath.Join [d; "Procfile"])) d with
  | inl err => mret (inl err)
  | inr cmdStr =>
      fp ← freePort env;
      match startCmd env d cmdStr fp with
      | Some text => mret (inl (OSError text))
      | None =>
          pid ← spawn d;
          ok ← waitPort env fp 5000;
          if negb ok then mret (inl (Timeout fp))
          else
            n ← Now;
            app ← startWatcher env
                    {| name := nm; dir := d; p := fp; c := pid; t := n;
                       watcher := None; ig := None |};
            mret (inr app)
      end
  end.


(** ** Router *)

Definition touch (nm : string) (a : appInfo) : M unit :=
  n ← Now;
  modify (setApps <[nm := {| name := name a; dir := dir a; p := p a;
                            c := c a; t := n; watcher := watcher a;
                            ig := ig a |}]>).

(** [handler] *)
Definition handler (cfg : Config) (env : Env) (host : string) : M response :=
  let nm := appName (domain cfg) host in
  let d := filepath.Join [root cfg; nm] in
  match stat env d with
  | StatDir =>
      match stat env (filepath.Join [d; "Procfile"]) with
      | StatNotExist => mret (FileServer d)
      | _ =>
          Lock;;
          s ← get;
          match apps s !! nm with
          | Some a => touch nm a;; Unlock;; mret (Proxy (p a))
          | None =>
              r ← start cfg env nm;
              match r with
              | inl err => Unlock;; mret (Error500 (errorText err))
              | inr newApp =>
                  modify (setApps <[nm := newApp]>);;
                  touch nm newApp;; Unlock;; mret (Proxy (p newApp))
              end
          end
      end
  | _ => mret NotFound
  end.

(** The directory the handler serves for a Host header. *)
Definition handlerDir (cfg : Config) (host : string) : string :=
  filepath.Join [root cfg; appName (domain cfg) host].

(** An element of a cleaned path: not empty, not "." or "..", and without
    separator. *)
Definition plainElem (e : string) : Prop :=
  e <> "" /\ e <> "." /\ e <> ".." /\ noByte "/" e.

(** ** Idle reaper *)

Definition idle (cfg : Config) (now : Z) (a : appInfo) : bool :=
  idleTTL cfg <? now - t a.

(** One tick of the reaper of [program.run]: with [mu] held it calls
    [stopApp] for every idle record. *)
Definition reap (cfg : Config) : M unit :=
  Lock;;
  s ← get;
  forEach (map_to_list (apps s))
    (fun '(_, a) =>
       n ← Now;
       if idle cfg n a then stopApp a else mret tt);;
  Unlock.

(** One tick of the reaper of the older [main.go]: with [mu] held it kills
    the child of every idle record and deletes the record. *)
Definition reapInline (cfg : Config) : M unit :=
  Lock;;
  s ← get;
  forEach (map_to_list (apps s))
    (fun '(n, a) =>
       now ← Now;
       if idle cfg now a
       then Kill (c a);; modify (setApps (delete n))
       else mret tt);;
  Unlock.

(** Time passes between two operations. *)
Definition elapse (d : Z) (s : State) : State := setClock (clock s + d) s.

Definition initial : State :=
  {| apps := ∅; mu := false; clock := 0; procs := ∅; watchers := ∅;
     spawned := []; nextWatcher := 0 |}.

(** ** Concurrent requests

    The handler again, cut at every access to the shared state, so that
    requests can be interleaved.  A request that passed the two [os.Stat]
    checks is at one of these points. *)

Inductive pc :=
| AtLock                                   (** before [mu.Lock()] *)
| AtLookup                                 (** before [a, ok := apps[name]] *)
| AtStart                                  (** in [start], before [cmd.Start()] *)
| AtProbe (d : string) (fp : Z) (pid : nat) (** in [start], before [waitPort] *)
| AtInsert (newApp : appInfo)              (** before [apps[name] = newApp] *)
| AtTouch (a : appInfo)                    (** before [a.t = time.Now()] *)
| AtUnlock (r : response)                  (** before [mu.Unlock()] *)
| Done (r : response)                      (** the response is written *)
| Dead.                                    (** the goroutine panicked *)

(** The next point of a request and the state after its step; a request
    that cannot take the mutex stays where it is. *)
Definition advance (m : M pc) (stay : pc) (s : State) : pc * State :=
  match m s with
  | Ret l s' => (l, s')
  | Panic s' => (Dead, s')
  | Hang s' => (stay, s')
  end.

Definition tstep (cfg : Config) (env : Env) (nm : string) (l : pc)
  : State -> pc * State :=
  let d := filepath.Join [root cfg; nm] in
  match l with
  | AtLock => advance (Lock;; mret AtLookup) l
  | AtLookup =>
      advance (s ← get;
               match apps s !! nm with
               | Some a => mret (AtTouch a)
               | None => mret AtStart
               end) l
  | AtStart =>
      advance
        match procfile (openFile env (filepath.Join [d; "Procfile"])) d with
        | inl err => mret (AtUnlock (Error500 (errorText err)))
        | inr cmdStr =>
            fp ← freePort env;
            match startCmd env d cmdStr fp with
            | Some text =>
                mret (AtUnlock (Error500 (errorText (OSError text))))
            | None => pid ← spawn d; mret (AtProbe d fp pid)
            end
        end l
  | AtProbe d' fp pid =>
      advance
        (ok ← waitPort env fp 5000;
         if negb ok then mret (AtUnlock (Error500 (errorText (Timeout fp))))
         else
           n ← Now;
           app ← startWatcher env
                   {| name := nm; dir := d'; p := fp; c := pid; t := n;
                      watcher := None; ig := None |};
           mret (AtInsert app)) l
  | AtInsert newApp =>
      advance (modify (setApps <[nm := newApp]>);; mret (AtTouch newApp)) l
  | AtTouch a => advance (touch nm a;; mret (AtUnlock (Proxy (p a)))) l
  | AtUnlock r => advance (Unlock;; mret (Done r)) l
  | Done r => fun s => (l, s)
  | Dead => fun s => (l, s)
  end.



(** A thread that runs alone from a point until it is done or dead. *)
Fixpoint alone (cfg : Config) (env : Env) (nm : string) (fuel : nat) (l : pc)
  (s : State) : pc * State :=
  match fuel with
  | O => (l, s)
  | S k => let '(l', s') := tstep cfg env nm l s in alone cfg env nm k l' s'
  end.






(** ** Scenarios

    The set-up of the specification's scenarios: root [/t], domain
    [localhost], an app [hello] with a Procfile and the [.watch] file of the
    usage text, and an app [broken] whose child never listens. *)

Module Scenario.

Definition cfg : Config :=
  {| root := "/t"; domain := "localhost"; idleTTL := 600000 |}.

(** The pattern set of a [.watch] file with the one line "src/ *" (without
    the blank).  The library compiles the line to a regular expression that
    asks for an element "src" followed by a separator anywhere in the path:
    a path matches when one of its elements, not the last one, is "src". *)
Definition srcStar : GitIgnore :=
  {| MatchesPath := fun path =>
       existsb (String.eqb "src") (removelast (Split path "/")) |}.

Definition helloTree : node :=
  Dir "hello"
    [ File ".watch"; File "Procfile"; Dir ".git" [Dir "objects" []];
      Dir "src" [File "a.txt"] ].

Definition newTree : node := Dir "new" [Dir ".tmp" []; Dir "sub" []].

Definition hello : Env :=
  {| stat := fun path =>
       if String.eqb path "/t/hello" then StatDir
       else if String.eqb path "/t/hello/Procfile" then StatFile
       else if String.eqb path "/t/hello/src/new" then StatDir
       else StatNotExist;
     openFile := fun path =>
       if String.eqb path "/t/hello/Procfile"
       then inl ("web: ./start.sh $PORT" +:+ String LF "")
       else inr ("open " +:+ path +:+ ": no such file or directory");
     compileIgnoreFile := fun path =>
       if String.eqb path "/t/hello/.watch" then Some srcStar else None;
     listen := Some 40000;
     startCmd := fun _ _ _ => None;
     dial := fun _ _ => (true, 1%N);
     lstat := fun path =>
       if String.eqb path "/t/hello" then Some helloTree
       else if String.eqb path "/t/hello/src/new" then Some newTree
       else None |}.

(** The same app when no port can be bound. *)
Definition noPort : Env :=
  {| stat := stat hello; openFile := openFile hello;
     compileIgnoreFile := compileIgnoreFile hello; listen := None;
     startCmd := startCmd hello; dial := dial hello; lstat := lstat hello |}.

(** Scenario S4: the child sleeps and never accepts a connection. *)
Definition broken : Env :=
  {| stat := fun path =>
       if String.eqb path "/t/broken" then StatDir
       else if String.eqb path "/t/broken/Procfile" then StatFile
       else StatNotExist;
     openFile := fun path =>
       if String.eqb path "/t/broken/Procfile"
       then inl ("web: sleep 60" +:+ String LF "")
       else inr ("open " +:+ path +:+ ": no such file or directory");
     compileIgnoreFile := fun _ => None;
     listen := Some 40000;
     startCmd := fun _ _ _ => None;
     dial := fun _ _ => (false, 0%N);
     lstat := fun _ => None |}.

(** The parent of the root is a directory without Procfile. *)
Definition parent : Env :=
  {| stat := fun path => if String.eqb path "/" then StatDir else StatNotExist;
     openFile := fun path =>
       inr ("open " +:+ path +:+ ": no such file or directory");
     compileIgnoreFile := fun _ => None;
     listen := Some 40000;
     startCmd := fun _ _ _ => None;
     dial := fun _ _ => (true, 1%N);
     lstat := fun _ => None |}.

(** The state after the first request for [hello] (scenario S1). *)
Definition served : State :=
  match handler cfg hello "hello.localhost:7777" initial with
  | Ret _ s => s
  | Panic s | Hang s => s
  end.

(** The record of [hello] in that state. *)
Definition helloApp : appInfo :=
  {| name := "hello"; dir := "/t/hello"; p := 40000; c := 0; t := 1;
     watcher := Some 0%nat; ig := Some srcStar |}.

(** Scenario S6: ten minutes and a millisecond later, without a request. *)
Definition idled : State := elapse 600001 served.

End Scenario.

(** ** States and records of a launch *)

(** The directories a new watcher observes for an app directory. *)
Definition watchedDirs (env : Env) (d : string) : gset string :=
  match lstat env d with
  | Some n => list_to_set (walkDirs d n)
  | None => ∅
  end.

(** The state after [cmd.Start()] succeeded in directory [d]. *)
Definition afterSpawn (d : string) (s : State) : State :=
  {| apps := apps s; mu := mu s; clock := clock s;
     procs := procs s ∪ {[length (spawned s)]}; watchers := watchers s;
     spawned := (d, length (spawned s)) :: spawned s;
     nextWatcher := nextWatcher s |}.

(** The state a successful [start] leaves when the probe took [e]
    milliseconds. *)
Definition afterStart (env : Env) (d : string) (e : Z) (s : State) : State :=
  {| apps := apps s; mu := mu s; clock := clock s + e;
     procs := procs s ∪ {[length (spawned s)]};
     watchers := <[nextWatcher s := watchedDirs env d]> (watchers s);
     spawned := (d, length (spawned s)) :: spawned s;
     nextWatcher := S (nextWatcher s) |}.

(** The record a successful [start] returns. *)
Definition startedApp (env : Env) (nm d : string) (fp e : Z) (s : State)
  : appInfo :=
  {| name := nm; dir := d; p := fp; c := length (spawned s);
     t := clock s + e; watcher := Some (nextWatcher s);
     ig := compileIgnoreFile env (filepath.Join [d; ".watch"]) |}.

(** The state an outcome leaves. *)
Definition stateOf {A} (o : outcome A) : State :=
  match o with
  | Ret _ s => s
  | Panic s => s
  | Hang s => s
  end.

(** A record after [a.t = time.Now()] at time [n]. *)
Definition touched (n : Z) (a : appInfo) : appInfo :=
  {| name := name a; dir := dir a; p := p a; c := c a; t := n;
     watcher := watcher a; ig := ig a |}.

(** The directory and the Procfile of a Host header pass the two checks
    of [handler] that come before the mutex. *)
Definition routed (cfg : Config) (env : Env) (host : string) : Prop :=
  stat env (handlerDir cfg host) = StatDir /\
  stat env (filepath.Join [handlerDir cfg host; "Procfile"]) <> StatNotExist.

(** Every record is registered under its own name, lives in the directory
    of that name, has a watcher, and was not used in the future. *)
Definition wellFormed (cfg : Config) (s : State) : Prop :=
  forall n a,
    apps s !! n = Some a ->
    name a = n /\ dir a = filepath.Join [root cfg; n] /\
    is_Some (watcher a) /\ t a <= clock s.

(** The second state has the time of the first and no record that the
    first does not have. *)
Definition shrinks (s s' : State) : Prop :=
  clock s' = clock s /\
  forall k, apps s' !! k = apps s !! k \/ apps s' !! k = None.

(** An entry that [addRecursive] passes over: a file, or a directory whose
    name begins with ".". *)
Definition passedOver (e : node) : Prop :=
  match e with
  | File _ => True
  | Dir nm _ => HasPrefix nm "." = true
  end.

(** The body of the loop of the reaper of [main.go]. *)
Definition sweep (cfg : Config) : string * appInfo -> M unit :=
  fun '(n, a) =>
    now ← Now;
    if idle cfg now a then Kill (c a);; modify (setApps (delete n))
    else mret tt.


(** ** Configuration of the older [main.go] *)

(** A root that begins with "~" is joined to the home directory. *)
Definition expandHome (home r : string) : string :=
  if HasPrefix r "~" then filepath.Join [home; slice r 1 (len r)] else r.

(** [main] of [main.go], up to the start of the reaper: root, domain and
    port from [os.Args] and the home directory; [None] when indexing
    [parts[1]] panics. *)
Definition mainConfig (home : string) (args : list string)
  : option (string * string * string) :=
  let r := expandHome home
             match args with
             | _ :: a1 :: _ => a1
             | _ => "./apps"
             end in
  match args with
  | _ :: _ :: a2 :: _ =>
      match Split a2 ":" with
      | dom :: port :: _ =>
          Some (r, dom, if String.eqb port "" then "80" else port)
      | _ => None
      end
  | _ => Some (r, "localhost", "80")
  end.
(** ** Facts about byte strings *)

(** White space is trimmed by runes: here a blank and U+00A0 in front, a
    carriage return and U+2028 behind. *)
Example TrimSpace_ex :
  TrimSpace (" " +:+ bytes [194; 160]%nat +:+ "./start.sh $PORT"
             +:+ bytes [13; 226; 128; 168]%nat)
  = "./start.sh $PORT".
Proof. vm_compute. reflexivity. Qed.

Section StringFacts.

Implicit Types (s a b suf : string) (c : ascii).

Lemma append_cons c a b : String c a +:+ b = String c (a +:+ b).
Proof. reflexivity. Qed.

Lemma append_nil_l a : EmptyString +:+ a = a.
Proof. reflexivity. Qed.

Lemma append_nil_r a : a +:+ EmptyString = a.
Proof. induction a as [|c a IH]; [done|]. by rewrite append_cons, IH. Qed.

Lemma append_assoc a b s : (a +:+ b) +:+ s = a +:+ (b +:+ s).
Proof. induction a as [|c a IH]; [done|]. by rewrite !append_cons, IH. Qed.

Lemma len_append a b : len (a +:+ b) = (len a + len b)%nat.
Proof.
  unfold len. induction a as [|c a IH]; [done|].
  rewrite append_cons. simpl. by rewrite IH.
Qed.

Lemma substring_0_0 s : String.substring 0 0 s = EmptyString.
Proof. by destruct s. Qed.

Lemma substring_all s : String.substring 0 (String.length s) s = s.
Proof. induction s as [|c s IH]; [done|]. simpl. by rewrite IH. Qed.

Lemma substring_head a b :
  String.substring 0 (String.length a) (a +:+ b) = a.
Proof.
  induction a as [|c a IH]; [apply substring_0_0|].
  rewrite append_cons. simpl. by rewrite IH.
Qed.

Lemma substring_tail a b n :
  String.substring (String.length a) n (a +:+ b) = String.substring 0 n b.
Proof. induction a as [|c a IH]; [done|]. by rewrite append_cons. Qed.

Lemma substring_cut s n :
  (n <= String.length s)%nat ->
  s = String.substring 0 n s +:+ String.substring n (String.length s - n) s.
Proof.
  revert n. induction s as [|c s IH]; intros [|n] Hn; simpl in *;
    try done; try lia.
  - by rewrite substring_all.
  - rewrite append_cons. f_equal. apply IH. lia.
Qed.

Lemma append_inj_l a b suf : a +:+ suf = b +:+ suf -> a = b.
Proof.
  intros E.
  assert (L : len a = len b).
  { apply (f_equal len) in E. rewrite !len_append in E. lia. }
  rewrite <- (substring_head a suf), <- (substring_head b suf).
  unfold len in L. by rewrite E, L.
Qed.

Lemma HasSuffix_spec s suf :
  HasSuffix s suf = true <-> exists a, s = a +:+ suf.
Proof.
  unfold HasSuffix, slice, len. split.
  - intros [L E%String.eqb_eq]%andb_true_iff. apply Nat.leb_le in L.
    exists (String.substring 0 (String.length s - String.length suf) s).
    pose proof (substring_cut s (String.length s - String.length suf)) as C.
    rewrite E in C. apply C. lia.
  - intros [a ->]. apply andb_true_iff. fold (len (a +:+ suf)).
    rewrite len_append. unfold len. split; [apply Nat.leb_le; lia|].
    apply String.eqb_eq.
    replace (String.length a + String.length suf - String.length suf)%nat
      with (String.length a) by lia.
    replace (String.length a + String.length suf - String.length a)%nat
      with (String.length suf) by lia.
    rewrite substring_tail. apply substring_all.
Qed.

Lemma TrimSuffix_app a suf : TrimSuffix (a +:+ suf) suf = a.
Proof.
  unfold TrimSuffix.
  assert (H : HasSuffix (a +:+ suf) suf = true) by (apply HasSuffix_spec; eauto).
  rewrite H. unfold slice. rewrite len_append. unfold len.
  replace (String.length a + String.length suf - String.length suf - 0)%nat
    with (String.length a) by lia.
  apply substring_head.
Qed.

Lemma TrimSuffix_other s suf :
  (forall a, s <> a +:+ suf) -> TrimSuffix s suf = s.
Proof.
  intros N. unfold TrimSuffix.
  destruct (HasSuffix s suf) eqn:E; [|done].
  apply HasSuffix_spec in E as [a ->]. by destruct (N a).
Qed.

Lemma HasPrefix_spec s a : HasPrefix s a = true <-> exists b, s = a +:+ b.
Proof.
  unfold HasPrefix, slice, len. rewrite Nat.sub_0_r. split.
  - intros [L E%String.eqb_eq]%andb_true_iff. apply Nat.leb_le in L.
    exists (String.substring (String.length a)
              (String.length s - String.length a) s).
    rewrite <- E at 1. by apply substring_cut.
  - intros [b ->]. apply andb_true_iff. fold (len (a +:+ b)).
    rewrite len_append. unfold len. split; [apply Nat.leb_le; lia|].
    apply String.eqb_eq, substring_head.
Qed.

End StringFacts.

(** ** The router's name *)

Section Router.

Implicit Types (s h rest a b : string) (x sep : ascii).

Lemma noByte_nil sep : noByte sep "".
Proof. intros [|y a] b; discriminate. Qed.

Lemma noByte_cons sep x h :
  noByte sep (String x h) <-> x <> sep /\ noByte sep h.
Proof.
  split.
  - intros N. split.
    + intros ->. by apply (N "" h).
    + intros a b ->. by apply (N (String x a) b).
  - intros [Hx N] [|y a] b; rewrite ?append_cons, ?append_nil_l.
    + intros [= -> _]. by apply Hx.
    + intros [= _ ->]. by apply (N a b).
Qed.

Lemma Split_cons s sep : exists f fs, Split s sep = f :: fs.
Proof.
  induction s as [|x s (f & fs & IH)]; simpl; [by eauto|].
  destruct (Ascii.eqb x sep); [by eauto|]. rewrite IH. eauto.
Qed.

(** The first field of [Split] is the text before the first separator. *)
Lemma Split_first h rest sep :
  noByte sep h ->
  rest = "" \/ (exists r, rest = String sep r) ->
  List.hd "" (Split (h +:+ rest) sep) = h.
Proof.
  induction h as [|x h IH]; intros N R.
  - rewrite append_nil_l. destruct R as [->|[r ->]]; simpl; [done|].
    by rewrite Ascii.eqb_refl.
  - apply noByte_cons in N as [Hx N]. rewrite append_cons. simpl.
    destruct (Ascii.eqb_spec x sep) as [|_]; [done|].
    specialize (IH N R).
    destruct (Split_cons (h +:+ rest) sep) as (f & fs & E).
    rewrite E in IH |- *. simpl in *. by rewrite IH.
Qed.

Lemma Split_first_cut s sep :
  exists rest,
    s = List.hd "" (Split s sep) +:+ rest /\
    noByte sep (List.hd "" (Split s sep)) /\
    (rest = "" \/ exists r, rest = String sep r).
Proof.
  induction s as [|x s (rest & E & N & R)]; simpl.
  - exists "". split; [done|]. split; [apply noByte_nil|by left].
  - destruct (Ascii.eqb_spec x sep) as [->|Hx]; simpl.
    + exists (String sep s). split; [done|].
      split; [apply noByte_nil|right; eauto].
    + destruct (Split_cons s sep) as (f & fs & F).
      rewrite F in E, N |- *. simpl in *. exists rest.
      rewrite append_cons, <- E. split; [done|].
      split; [by apply noByte_cons|done].
Qed.

Lemma stripped_TrimSuffix s suf : stripped suf s (TrimSuffix s suf).
Proof.
  destruct (HasSuffix s suf) eqn:E.
  - apply HasSuffix_spec in E as [a ->]. rewrite TrimSuffix_app. constructor.
  - rewrite TrimSuffix_other; [constructor|]; intros a ->;
      assert (HasSuffix (a +:+ suf) suf = true) by (apply HasSuffix_spec; eauto);
      congruence.
Qed.

Lemma stripped_fun s suf r : stripped suf s r -> r = TrimSuffix s suf.
Proof.
  intros [a|s' N]; [by rewrite TrimSuffix_app|by rewrite TrimSuffix_other].
Qed.

End Router.

(** C4.  The name the handler computes is the one the routing rule of the
    specification describes: the Host header up to the first ":", without
    one trailing occurrence of the configured domain, then without one
    trailing ".", and "www" when nothing is left. *)
Theorem appName_routesTo domain host nm :
  routesTo domain host nm <-> appName domain host = nm.
Proof.
  unfold appName, hostField. split.
  - intros [h rest a b -> N R Ha Hb].
    rewrite (Split_first h rest ":" N R).
    apply stripped_fun in Ha as <-. apply stripped_fun in Hb as <-.
    destruct (String.eqb_spec b ""); by case_decide.
  - intros <-.
    destruct (Split_first_cut host ":") as (rest & E & N & R).
    set (h := List.hd "" (Split host ":")) in *.
    pose proof (routesTo_intro domain host h rest _ _ E N R
                  (stripped_TrimSuffix h domain)
                  (stripped_TrimSuffix (TrimSuffix h domain) ".")) as Hr.
    destruct (String.eqb_spec (TrimSuffix (TrimSuffix h domain) ".") "");
      by case_decide.
Qed.

(** ** The Procfile reader *)

Section Procfile.







End Procfile.


(** ** Stopping an app *)

(** Unfolds the sequencing of computations and the operations on the
    state. *)
Ltac step :=
  unfold mbind, M_bind, mret, M_ret, bind, ret, panic, get, modify, Lock,
    Unlock, Now, Sleep, Kill, closeWatcher in *;
  simpl in *.

Section Stop.

Implicit Types (a b : appInfo) (s : State) (w : nat).

Lemma State_eq s s' :
  apps s = apps s' -> mu s = mu s' -> clock s = clock s' ->
  procs s = procs s' -> watchers s = watchers s' ->
  spawned s = spawned s' -> nextWatcher s = nextWatcher s' -> s = s'.
Proof. destruct s, s'; simpl; congruence. Qed.

(** With the mutex free, [stopApp] returns and leaves [stopped]. *)
Lemma stopApp_free a w s :
  mu s = false -> watcher a = Some w ->
  stopApp a s = Ret tt (stopped a w s).
Proof.
  intros Hmu Hw. unfold stopApp. step. rewrite Hmu, Hw. simpl. f_equal.
  by apply State_eq.
Qed.

(** With the mutex held, [stopApp] blocks on it and changes nothing. *)
Lemma stopApp_held a s : mu s = true -> stopApp a s = Hang s.
Proof.
  intros Hmu. unfold stopApp. step. by rewrite Hmu.
Qed.

Lemma stopped_mu a w s : mu (stopped a w s) = mu s.
Proof. done. Qed.

(** A record that is not registered, whose child is gone and whose watcher
    is closed: stopping it changes nothing. *)
Lemma stopped_noop a w s :
  apps s !! name a = None -> c a ∉ procs s -> watchers s !! w = None ->
  stopped a w s = s.
Proof.
  intros Ha Hc Hw. apply State_eq; simpl; try done.
  - by apply delete_id.
  - apply set_eq. intros x. rewrite elem_of_difference, elem_of_singleton.
    split; [tauto|]. intros Hx. split; [done|]. by intros ->.
  - by apply delete_id.
Qed.

Lemma stopped_comm a b w w' s :
  stopped a w (stopped b w' s) = stopped b w' (stopped a w s).
Proof.
  apply State_eq; simpl; try done.
  - apply delete_delete.
  - apply set_eq. intros x. rewrite !elem_of_difference. tauto.
  - apply delete_delete.
Qed.

End Stop.

(** C8.  [stopApp] is idempotent and commutes with further stops: a first
    stop removes the record, closes its watcher and kills the child; a
    second stop of the record returns and leaves the state as it is; and
    two stops, of records of one name or of two, give the same state in
    either order. *)
Theorem stopApp_idempotent a b w w' s :
  mu s = false -> watcher a = Some w -> watcher b = Some w' ->
  exists s1,
    stopApp a s = Ret tt s1 /\
    apps s1 !! name a = None /\ (c a ∉ procs s1) /\
    watchers s1 !! w = None /\
    stopApp a s1 = Ret tt s1 /\
    bind (stopApp a) (fun _ => stopApp b) s =
    bind (stopApp b) (fun _ => stopApp a) s.
Proof.
  intros Hmu Ha Hb. exists (stopped a w s).
  assert (H1 : apps (stopped a w s) !! name a = None) by apply lookup_delete_eq.
  assert (H2 : c a ∉ procs (stopped a w s)).
  { simpl. rewrite elem_of_difference, elem_of_singleton. tauto. }
  assert (H3 : watchers (stopped a w s) !! w = None) by apply lookup_delete_eq.
  repeat split; try done.
  - by apply stopApp_free.
  - rewrite (stopApp_free a w) by done. f_equal. by apply stopped_noop.
  - unfold bind.
    rewrite (stopApp_free a w s), (stopApp_free b w' s) by done.
    rewrite (stopApp_free b w'), (stopApp_free a w) by done.
    f_equal. symmetry. apply stopped_comm.
Qed.

Lemma stopApp_idempotent_witness :
  exists s1,
    stopApp Scenario.helloApp Scenario.served = Ret tt s1 /\
    apps s1 !! "hello" = None /\ (0%nat ∉ procs s1) /\
    watchers s1 !! 0%nat = None /\
    stopApp Scenario.helloApp s1 = Ret tt s1 /\
    bind (stopApp Scenario.helloApp) (fun _ => stopApp Scenario.helloApp)
      Scenario.served =
    bind (stopApp Scenario.helloApp) (fun _ => stopApp Scenario.helloApp)
      Scenario.served.
Proof.
  apply (stopApp_idempotent Scenario.helloApp Scenario.helloApp 0%nat 0%nat
           Scenario.served); reflexivity.
Defined.

(** ** Ignore matcher and watcher events *)

(** The loop over the path elements has no effect on the result: whenever
    it returns early it returns what the last line would return. *)
Lemma matchInverted_MatchesPath path g :
  matchInverted path (Some g) = MatchesPath g path.
Proof.
  unfold matchInverted. induction (Split path "/") as [|part rest IH]; [done|].
  destruct (HasPrefix part "."), (MatchesPath g path) eqn:E; simpl; try done.
  all: by rewrite IH.
Qed.

(** C6.  The rule for path elements that begin with "." changes nothing:
    [matchInverted] is [MatchesPath] on every path.  With the [.watch] line
    of the usage text, a write to the dotfile [src/.cache], which only the
    wildcard matches, stops the app. *)
Theorem matchInverted_ignores_dot_rule :
  (forall path g, matchInverted path (Some g) = MatchesPath g path) /\
  matchInverted "/t/hello/src/.cache" (Some Scenario.srcStar) = true /\
  exists s',
    deliver Scenario.hello Scenario.helloApp
      {| Name := "/t/hello/src/.cache"; Op := 2 |} Scenario.served
    = Ret tt s' /\
    apps s' !! "hello" = None.
Proof.
  split; [apply matchInverted_MatchesPath|]. split; [reflexivity|].
  eexists. split; [vm_compute; reflexivity|reflexivity].
Qed.






(** ** Readiness probe and launcher *)

Section Launch.

Implicit Types (s : State) (env : Env) (cfg : Config).

Lemma setClock_setClock n m s : setClock n (setClock m s) = setClock n s.
Proof. done. Qed.

Lemma setClock_id s : setClock (clock s) s = s.
Proof. by destruct s. Qed.

(** The probe always returns, and only time passes. *)
Lemma waitPortLoop_ret fuel env port deadline s :
  exists ok d,
    0 <= d /\
    waitPortLoop fuel env port deadline s = Ret ok (setClock (clock s + d) s).
Proof.
  revert s. induction fuel as [|k IH]; intros s; simpl.
  - exists false, 0. split; [lia|]. step. by rewrite Z.add_0_r, setClock_id.
  - step. destruct (clock s <? deadline).
    + destruct (dial env port (clock s)) as [[] e]; simpl.
      * exists true, (Z.of_N e). split; [lia|done].
      * destruct (IH (setClock (clock s + Z.of_N e + 100)
                        (setClock (clock s + Z.of_N e) s)))
          as (ok & d & Hd & ->).
        exists ok, (Z.of_N e + 100 + d). split; [lia|].
        simpl. rewrite !setClock_setClock. do 2 f_equal. lia.
    + exists false, 0. split; [lia|]. by rewrite Z.add_0_r, setClock_id.
Qed.

(** With enough rounds, the probe gives up only when the deadline is
    reached. *)
Lemma waitPortLoop_false fuel env port deadline s s' :
  deadline - clock s <= 100 * Z.of_nat fuel ->
  waitPortLoop fuel env port deadline s = Ret false s' ->
  deadline <= clock s'.
Proof.
  revert s. induction fuel as [|k IH]; intros s Hf; simpl; step.
  - intros [= <-]. lia.
  - destruct (clock s <? deadline) eqn:E.
    + destruct (dial env port (clock s)) as [[] e]; simpl; [done|].
      apply IH. simpl. lia.
    + intros [= <-]. lia.
Qed.

Lemma waitPort_ret env port timeout s :
  exists ok d,
    0 <= d /\ waitPort env port timeout s = Ret ok (setClock (clock s + d) s).
Proof. unfold waitPort, mbind, M_bind, bind, Now. apply waitPortLoop_ret. Qed.

Lemma waitPort_false env port s s' :
  waitPort env port 5000 s = Ret false s' -> clock s + 5000 <= clock s'.
Proof.
  unfold waitPort, mbind, M_bind, bind, Now. apply waitPortLoop_false.
  change (Z.of_nat (S (Z.to_nat (5000 / 100)))) with 51. lia.
Qed.


Lemma freePort_none env s : listen env = None -> freePort env s = Panic s.
Proof. unfold freePort. by intros ->. Qed.

(** A launch that fails at the probe returns with the child it started
    still running: the registry is as before, the child is in the process
    table, and nothing refers to it. *)
Lemma start_timeout cfg env nm fp s s' :
  start cfg env nm s = Ret (inl (Timeout fp)) s' ->
  apps s' = apps s /\ mu s' = mu s /\
  procs s' = procs s ∪ {[length (spawned s)]} /\
  spawned s' = (filepath.Join [root cfg; nm], length (spawned s)) :: spawned s /\
  clock s + 5000 <= clock s'.
Proof.
  unfold start. set (d := filepath.Join [root cfg; nm]).
  destruct (procfile _ d) as [err|cmdStr] eqn:P.
  { unfold procfile in P. destruct (openFile env _); [|by inversion P].
    destruct (String.eqb _ ""); inversion P; by step. }
  unfold freePort. destruct (listen env) as [port|]; [|done].
  unfold mbind at 1, M_bind at 1, bind at 1, mret at 1, M_ret at 1, ret at 1.
  destruct (startCmd env d cmdStr port); [done|].
  unfold mbind at 1, M_bind at 1, bind at 1, spawn at 1.
  unfold mbind at 1, M_bind at 1, bind at 1.
  match goal with |- context [waitPort env port 5000 ?x] => set (s1 := x) end.
  destruct (waitPort_ret env port 5000 s1) as (ok & e & He & W).
  pose proof (waitPort_false env port s1) as F. rewrite W in *.
  destruct ok; simpl.
  { unfold startWatcher, NewWatcher, addRecursive. step.
    destruct (lstat env d); done. }
  unfold mret, M_ret, ret. intros [= -> <-].
  specialize (F _ eq_refl). simpl in *. repeat split; try done.
Qed.

End Launch.

(** C1, the part the program misses.  In scenario S4 the request is
    answered with status 500 and the text of the time-out after the 5 s of
    the probe, and no record is inserted, but the child of the failed launch
    still runs; the next request launches again and leaves a second child
    behind. *)
Theorem start_timeout_leaves_child :
  exists s1 s2,
    handler Scenario.cfg Scenario.broken "broken.localhost:7777" initial
    = Ret (Error500 "TIMEOUT 127.0.0.1:40000") s1 /\
    apps s1 = ∅ /\ mu s1 = false /\ clock s1 = 5000 /\
    procs s1 = {[0%nat]} /\ spawned s1 = [("/t/broken", 0%nat)] /\
    handler Scenario.cfg Scenario.broken "broken.localhost:7777" s1
    = Ret (Error500 "TIMEOUT 127.0.0.1:40000") s2 /\
    apps s2 = ∅ /\ procs s2 = {[0%nat; 1%nat]} /\
    spawned s2 = [("/t/broken", 1%nat); ("/t/broken", 0%nat)].
Proof.
  do 2 eexists.
  split; [vm_compute; reflexivity|].
  split; [reflexivity|]. split; [reflexivity|]. split; [reflexivity|].
  split; [reflexivity|]. split; [reflexivity|].
  split; [vm_compute; reflexivity|].
  split; [reflexivity|]. split; [by vm_compute|reflexivity].
Qed.

(** C9, what the program does instead.  When no port can be bound,
    [freePort] panics; the request is not answered with status 500, and the
    panic leaves the mutex locked, so the next request for an app with a
    Procfile blocks for ever. *)
Theorem freePort_failure_panics :
  freePort Scenario.noPort initial = Panic initial /\
  handler Scenario.cfg Scenario.noPort "hello.localhost:7777" initial
  = Panic (setMu true initial) /\
  handler Scenario.cfg Scenario.hello "hello.localhost:7777"
    (setMu true initial)
  = Hang (setMu true initial).
Proof. split; [|split]; vm_compute; reflexivity. Qed.

(** ** Idle reaper *)

Section Reaper.

Implicit Types (s : State) (cfg : Config).

Let visit cfg : string * appInfo -> M unit :=
  fun '(_, a) => n ← Now; if idle cfg n a then stopApp a else mret tt.

(** The loop of the reaper runs with the mutex held: it passes over the
    records that are in use and blocks at the first idle one, in whatever
    order the map is traversed. *)
Lemma reap_loop cfg (l : list (string * appInfo)) s :
  mu s = true ->
  forEach l (visit cfg) s =
  if existsb (fun na => idle cfg (clock s) na.2) l then Hang s else Ret tt s.
Proof.
  intros Hmu. induction l as [|[n a] l IH]; [done|]. simpl.
  unfold mbind, M_bind, bind, visit at 1, Now. simpl.
  destruct (idle cfg (clock s) a); simpl.
  - by rewrite stopApp_held.
  - apply IH.
Qed.

Lemma reap_idle_hangs cfg s n a :
  mu s = false -> apps s !! n = Some a -> idle cfg (clock s) a = true ->
  reap cfg s = Hang (setMu true s).
Proof.
  intros Hmu Ha Hi. unfold reap. unfold mbind at 1, M_bind at 1, bind at 1, Lock.
  rewrite Hmu. unfold mbind at 1, M_bind at 1, bind at 1.
  unfold mbind at 1, M_bind at 1, bind at 1, get.
  change (forEach (map_to_list (apps (setMu true s))) _)
    with (forEach (map_to_list (apps s)) (visit cfg)).
  rewrite reap_loop by done.
  assert (E : existsb (fun na => idle cfg (clock (setMu true s)) na.2)
                (map_to_list (apps s)) = true).
  { apply existsb_exists. exists (n, a). split; [|done].
    apply list_elem_of_In. by apply elem_of_map_to_list. }
  by rewrite E.
Qed.

Lemma reap_in_use cfg s :
  mu s = false ->
  (forall n a, apps s !! n = Some a -> idle cfg (clock s) a = false) ->
  reap cfg s = Ret tt s.
Proof.
  intros Hmu Hn. unfold reap. unfold mbind at 1, M_bind at 1, bind at 1, Lock.
  rewrite Hmu. unfold mbind at 1, M_bind at 1, bind at 1.
  unfold mbind at 1, M_bind at 1, bind at 1, get.
  change (forEach (map_to_list (apps (setMu true s))) _)
    with (forEach (map_to_list (apps s)) (visit cfg)).
  rewrite reap_loop by done.
  assert (E : existsb (fun na => idle cfg (clock (setMu true s)) na.2)
                (map_to_list (apps s)) = false).
  { apply not_true_is_false. intros ([n a] & Hin & Hi)%existsb_exists.
    apply list_elem_of_In, elem_of_map_to_list in Hin.
    simpl in Hi. by rewrite (Hn n a Hin) in Hi. }
  rewrite E. unfold Unlock. simpl. f_equal. destruct s; simpl in *. by subst.
Qed.

End Reaper.

(** C2, what the program does instead.  In scenario S6 the record of
    [hello] is idle at the tick of the reaper.  The reaper takes the mutex
    and calls [stopApp], which asks for the mutex again: the reaper blocks
    for ever with the record in the registry and the child running, and the
    next request for the app blocks as well.  The reaper of the older
    [main.go], which kills and deletes in place, removes the record. *)
Theorem reaper_blocks_on_idle_record :
  apps Scenario.idled !! "hello" = Some Scenario.helloApp /\
  idle Scenario.cfg (clock Scenario.idled) Scenario.helloApp = true /\
  reap Scenario.cfg Scenario.idled = Hang (setMu true Scenario.idled) /\
  handler Scenario.cfg Scenario.hello "hello.localhost:7777"
    (setMu true Scenario.idled)
  = Hang (setMu true Scenario.idled) /\
  exists s',
    reapInline Scenario.cfg Scenario.idled = Ret tt s' /\
    apps s' = ∅ /\ procs s' = ∅.
Proof.
  split; [reflexivity|]. split; [reflexivity|].
  split; [by apply (reap_idle_hangs _ _ "hello" Scenario.helloApp)|].
  split; [vm_compute; reflexivity|].
  eexists. split; [vm_compute; reflexivity|]. split; reflexivity.
Qed.

(** ** Paths *)

Section Paths.

Implicit Types (e s name : string) (es rs out : list string).

Lemma Split_plain e : noByte "/" e -> Split e "/" = [e].
Proof.
  induction e as [|x e IH]; intros N; [done|].
  apply noByte_cons in N as [Hx N]. simpl.
  destruct (Ascii.eqb_spec x "/") as [|_]; [done|]. by rewrite IH.
Qed.

Lemma Split_app e s :
  noByte "/" e -> Split (e +:+ String "/" s) "/" = e :: Split s "/".
Proof.
  induction e as [|x e IH]; intros N; [done|].
  apply noByte_cons in N as [Hx N]. rewrite append_cons. simpl.
  destruct (Ascii.eqb_spec x "/") as [|_]; [done|]. by rewrite IH.
Qed.

Lemma Join_cons e e' es :
  GoStrings.Join (e :: e' :: es) "/"
  = e +:+ String "/" (GoStrings.Join (e' :: es) "/").
Proof. done. Qed.

Lemma Split_Join es :
  es <> [] -> Forall (noByte "/") es -> Split (GoStrings.Join es "/") "/" = es.
Proof.
  intros Hne H. induction H as [|e es He Hes IH]; [done|].
  destruct es as [|e' es].
  - by apply Split_plain.
  - rewrite Join_cons, Split_app by done. f_equal. by apply IH.
Qed.

Lemma Join_snoc es e :
  es <> [] ->
  GoStrings.Join (es ++ [e]) "/" = GoStrings.Join es "/" +:+ String "/" e.
Proof.
  induction es as [|e1 es IH]; [done|]. intros _.
  destruct es as [|e2 es]; [done|].
  change ((e1 :: e2 :: es) ++ [e]) with (e1 :: (e2 :: es) ++ [e]).
  change ((e2 :: es) ++ [e]) with (e2 :: es ++ [e]) at 1.
  rewrite Join_cons. change (e2 :: es ++ [e]) with ((e2 :: es) ++ [e]).
  rewrite IH by done. rewrite Join_cons.
  by rewrite append_assoc, append_cons.
Qed.

Lemma plainElem_eqb e :
  plainElem e ->
  String.eqb e "" = false /\ String.eqb e "." = false /\
  String.eqb e ".." = false.
Proof. intros (? & ? & ? & _). by rewrite !String.eqb_neq. Qed.

(** Plain elements are pushed on the stack as they are. *)
Lemma cleanElems_plain rooted out rs rest :
  Forall plainElem rs ->
  filepath.cleanElems rooted out (rs ++ rest)
  = filepath.cleanElems rooted (rev rs ++ out) rest.
Proof.
  intros H. revert out. induction H as [|e rs He _ IH]; intros out; [done|].
  apply plainElem_eqb in He as (E1 & E2 & E3). simpl.
  rewrite E1, E2, E3. simpl. rewrite IH. by rewrite <- app_assoc.
Qed.



Lemma Clean_under_root rs name :
  rs <> [] -> Forall plainElem rs -> noByte "/" name ->
  filepath.Join ["/" +:+ GoStrings.Join rs "/"; name]
  = "/" +:+ GoStrings.Join
              (filepath.cleanElems true (rev rs) [name]) "/".
Proof.
  intros Hne Hrs Hn.
  assert (Hs : Forall (noByte "/") (rs ++ [name])).
  { apply Forall_app. split; [|by constructor].
    eapply Forall_impl; [done|]. by intros e (_ & _ & _ & ?). }
  change (filepath.Join ["/" +:+ GoStrings.Join rs "/"; name])
    with (filepath.Clean
            (String "/" (GoStrings.Join rs "/" +:+ String "/" name))).
  rewrite <- Join_snoc by done. unfold filepath.Clean.
  change (Ascii.eqb "/" "/") with true. cbv iota. cbn [Split].
  change (Ascii.eqb "/" "/") with true. cbv iota.
  rewrite Split_Join by (done || by destruct rs).
  cbn [filepath.cleanElems String.eqb orb].
  by rewrite cleanElems_plain, app_nil_r by done.
Qed.

(** What [filepath.Join(root, name)] is for a clean absolute root and a
    name without separator. *)
Lemma Join_root_name rs name :
  rs <> [] -> Forall plainElem rs -> noByte "/" name -> name <> "" ->
  filepath.Join ["/" +:+ GoStrings.Join rs "/"; name]
  = if decide (name = ".") then "/" +:+ GoStrings.Join rs "/"
    else if decide (name = "..")
         then "/" +:+ GoStrings.Join (removelast rs) "/"
         else ("/" +:+ GoStrings.Join rs "/") +:+ String "/" name.
Proof.
  intros Hne Hrs Hn Hn0. rewrite Clean_under_root by done.
  cbn [filepath.cleanElems].
  destruct (String.eqb_spec name "") as [|_]; [done|].
  destruct (String.eqb_spec name ".") as [->|H1]; cbn [orb].
  { by rewrite rev_involutive. }
  rewrite decide_False by done.
  destruct (String.eqb_spec name "..") as [->|H2].
  - rewrite decide_True by done.
    destruct rs as [|r rs _] using rev_ind; [done|].
    apply Forall_app in Hrs as [_ Hr]. inversion_clear Hr as [|? ? Hr' _].
    apply plainElem_eqb in Hr' as (_ & _ & E).
    rewrite rev_unit, E, rev_involutive. by rewrite removelast_last.
  - rewrite decide_False by done.
    cbn [rev]. rewrite rev_involutive, Join_snoc by done.
    by rewrite append_cons.
Qed.





End Paths.






(** ** Concurrent requests *)

Arguments filepath.Join : simpl never.
Arguments filepath.Clean : simpl never.

Section Interleaving.

Variables (cfg : Config) (env : Env) (nm : string).

Let d := filepath.Join [root cfg; nm].

Variables (cmdStr : string) (fp : Z) (base : nat).

Hypothesis Hprocfile :
  procfile (openFile env (filepath.Join [d; "Procfile"])) d = inr cmdStr.
Hypothesis Hlisten : listen env = Some fp.
Hypothesis HstartCmd : startCmd env d cmdStr fp = None.
Hypothesis Hprobe : forall s, exists s', waitPort env fp 5000 s = Ret true s'.










End Interleaving.




Arguments waitPort : simpl never.

(** The steps are the handler: a request that runs alone through its steps
    ends where [handler] ends, with the same response and the same state. *)
Lemma alone_handler cfg env host s :
  let nm := appName (domain cfg) host in
  mu s = false ->
  stat env (handlerDir cfg host) = StatDir ->
  stat env (filepath.Join [handlerDir cfg host; "Procfile"]) <> StatNotExist ->
  alone cfg env nm 7 AtLock s =
  match handler cfg env host s with
  | Ret r s' => (Done r, s')
  | Panic s' => (Dead, s')
  | Hang s' => (AtLock, s')
  end.
Proof.
  intros nm Hmu Hd Hp. unfold handler. fold nm.
  unfold handlerDir in Hd, Hp. fold nm in Hd, Hp. rewrite Hd.
  destruct (stat env (filepath.Join [filepath.Join [root cfg; nm]; "Procfile"]))
    eqn:E; try done.
  all: unfold alone, tstep, advance, start, touch, freePort, spawn; step;
    rewrite Hmu; simpl.
  all: destruct (apps s !! nm) as [a|]; simpl; [done|].
  all: destruct (procfile _ _) as [err|cmdStr]; simpl; [done|].
  all: destruct (listen env) as [fp|]; simpl; [|done].
  all: destruct (startCmd env _ cmdStr fp); simpl; [done|].
  all: match goal with |- context [waitPort ?e ?f 5000 ?x] =>
         destruct (waitPort_ret e f 5000 x) as ([] & ? & _ & ->) end;
    simpl; [|done].
  all: unfold startWatcher, NewWatcher, addRecursive; step;
    rewrite !lookup_insert_eq; by destruct (lstat env _).
Qed.

(** * Further properties of the program *)

(** ** Readiness probe *)

Section Probe.

Implicit Types (s : State) (env : Env).

Lemma waitPort_fuel timeout :
  timeout <= 100 * Z.of_nat (S (Z.to_nat (timeout / 100))).
Proof.
  destruct (Z.le_gt_cases 0 timeout) as [H|H].
  - rewrite Nat2Z.inj_succ, Z2Nat.id by (apply Z.div_pos; lia).
    pose proof (Z.mul_succ_div_gt timeout 100). lia.
  - lia.
Qed.

Lemma waitPortLoop_never fuel env port deadline s :
  (forall n, (dial env port n).1 = false) ->
  exists e, waitPortLoop fuel env port deadline s
            = Ret false (setClock (clock s + e) s).
Proof.
  intros Hd. revert s. induction fuel as [|k IH]; intros s; simpl; step.
  - exists 0. by rewrite Z.add_0_r, setClock_id.
  - destruct (clock s <? deadline).
    + pose proof (Hd (clock s)) as H.
      destruct (dial env port (clock s)) as [ok e]. simpl in H. subst ok.
      simpl.
      destruct (IH (setClock (clock s + Z.of_N e + 100)
                      (setClock (clock s + Z.of_N e) s))) as (e' & ->).
      exists (Z.of_N e + 100 + e'). simpl. rewrite !setClock_setClock.
      do 2 f_equal. lia.
    + exists 0. by rewrite Z.add_0_r, setClock_id.
Qed.

Lemma waitPortLoop_true fuel env port deadline s s' :
  waitPortLoop fuel env port deadline s = Ret true s' ->
  exists n, clock s <= n < deadline /\ (dial env port n).1 = true.
Proof.
  revert s. induction fuel as [|k IH]; intros s; simpl; step; [done|].
  destruct (clock s <? deadline) eqn:E; [|done].
  destruct (dial env port (clock s)) as [ok e] eqn:D. destruct ok; simpl.
  - intros _. exists (clock s). rewrite D. split; [lia|done].
  - intros H. apply IH in H as (n & Hn & Hd). simpl in Hn.
    exists n. split; [lia|done].
Qed.

End Probe.

Lemma waitPort_outcome env port timeout s :
  exists ok e,
    0 <= e /\
    waitPort env port timeout s = Ret ok (setClock (clock s + e) s) /\
    (ok = false -> timeout <= e).
Proof.
  destruct (waitPort_ret env port timeout s) as (ok & e & He & W).
  exists ok, e. split; [done|]. split; [done|]. intros ->.
  unfold waitPort, mbind, M_bind, bind, Now in W.
  apply waitPortLoop_false in W; [simpl in W; lia|].
  pose proof (waitPort_fuel timeout). lia.
Qed.

(** X1.  The probe always returns and lets nothing but time pass, and it
    reports a time-out only when the whole time-out has passed. *)
Theorem waitPort_times_out_at_deadline env port timeout s :
  exists ok e,
    0 <= e /\
    waitPort env port timeout s = Ret ok (setClock (clock s + e) s) /\
    (ok = false -> timeout <= e).
Proof. apply waitPort_outcome. Qed.

(** X2.  A child that never accepts a connection makes the probe report a
    time-out, after the time-out has passed. *)
Theorem waitPort_never_listening env port timeout s :
  (forall n, (dial env port n).1 = false) ->
  exists e,
    timeout <= e /\
    waitPort env port timeout s = Ret false (setClock (clock s + e) s).
Proof.
  intros Hd.
  destruct (waitPort_outcome env port timeout s) as (ok & e & He & W & Hf).
  assert (ok = false) as ->.
  { unfold waitPort, mbind, M_bind, bind, Now in W.
    destruct (waitPortLoop_never (S (Z.to_nat (timeout / 100))) env port
                (clock s + timeout) s Hd) as (e' & W').
    rewrite W' in W. by injection W. }
  exists e. split; [by apply Hf|done].
Qed.

Lemma waitPort_never_listening_witness :
  exists e,
    5000 <= e /\
    waitPort Scenario.broken 40000 5000 initial
    = Ret false (setClock (clock initial + e) initial).
Proof. apply (waitPort_never_listening Scenario.broken). reflexivity. Defined.

Lemma waitPort_true_dial env port timeout s s' :
  waitPort env port timeout s = Ret true s' ->
  exists n,
    clock s <= n < clock s + timeout /\ (dial env port n).1 = true.
Proof.
  unfold waitPort, mbind, M_bind, bind, Now. apply waitPortLoop_true.
Qed.

(** X3.  The probe reports success only when a connection was made: some
    dial that started before the deadline connected. *)
Theorem waitPort_success_connected env port timeout s s' :
  waitPort env port timeout s = Ret true s' ->
  exists n,
    clock s <= n < clock s + timeout /\ (dial env port n).1 = true.
Proof. apply waitPort_true_dial. Qed.

Lemma waitPort_success_connected_witness :
  exists n,
    clock initial <= n < clock initial + 5000 /\
    (dial Scenario.hello 40000 n).1 = true.
Proof.
  apply (waitPort_success_connected Scenario.hello 40000 5000 initial
           (setClock 1 initial)).
  vm_compute. reflexivity.
Defined.

(** ** Launcher and router *)

Section Launcher.

Implicit Types (s : State) (env : Env) (cfg : Config).

Lemma startWatcher_new env a s :
  watcher a = None ->
  startWatcher env a s =
  Ret {| name := name a; dir := dir a; p := p a; c := c a; t := t a;
         watcher := Some (nextWatcher s);
         ig := compileIgnoreFile env (filepath.Join [dir a; ".watch"]) |}
      {| apps := apps s; mu := mu s; clock := clock s; procs := procs s;
         watchers := <[nextWatcher s := watchedDirs env (dir a)]> (watchers s);
         spawned := spawned s; nextWatcher := S (nextWatcher s) |}.
Proof.
  intros Hw. unfold startWatcher. rewrite Hw. unfold NewWatcher, addRecursive.
  step. rewrite lookup_insert_eq. unfold watchedDirs. f_equal.
  destruct (lstat env (dir a)); simpl; apply State_eq; simpl; try done.
  by rewrite insert_insert_eq, (left_id_L ∅ (∪)).
Qed.

(** What [start] does, by the answers of the operating system. *)
Lemma start_cases cfg env nm s :
  let d := filepath.Join [root cfg; nm] in
  match procfile (openFile env (filepath.Join [d; "Procfile"])) d with
  | inl err => start cfg env nm s = Ret (inl err) s
  | inr cmdStr =>
      match listen env with
      | None => start cfg env nm s = Panic s
      | Some fp =>
          match startCmd env d cmdStr fp with
          | Some text => start cfg env nm s = Ret (inl (OSError text)) s
          | None =>
              exists ok e,
                0 <= e /\
                waitPort env fp 5000 (afterSpawn d s)
                = Ret ok (setClock (clock s + e) (afterSpawn d s)) /\
                if ok
                then start cfg env nm s
                     = Ret (inr (startedApp env nm d fp e s))
                         (afterStart env d e s)
                else 5000 <= e /\
                     start cfg env nm s
                     = Ret (inl (Timeout fp))
                         (setClock (clock s + e) (afterSpawn d s))
          end
      end
  end.
Proof.
  intros d.
  destruct (procfile _ d) as [err|cmdStr] eqn:P.
  { unfold start. fold d. by rewrite P. }
  destruct (listen env) as [fp|] eqn:L.
  2: { unfold start, freePort. fold d. by rewrite P, L. }
  destruct (startCmd env d cmdStr fp) eqn:C.
  { unfold start, freePort. fold d. rewrite P, L.
    unfold mbind, M_bind, bind, mret, M_ret, ret. by rewrite C. }
  destruct (waitPort_outcome env fp 5000 (afterSpawn d s))
    as (ok & e & He & W & Hf).
  exists ok, e. split; [done|]. split; [done|].
  assert (E : start cfg env nm s =
    match waitPort env fp 5000 (afterSpawn d s) with
    | Ret ok s1 =>
        if negb ok then Ret (inl (Timeout fp)) s1
        else
          match startWatcher env
                  {| name := nm; dir := d; p := fp; c := length (spawned s);
                     t := clock s1; watcher := None; ig := None |} s1 with
          | Ret app s2 => Ret (inr app) s2
          | Panic s2 => Panic s2
          | Hang s2 => Hang s2
          end
    | Panic s1 => Panic s1
    | Hang s1 => Hang s1
    end).
  { unfold start, freePort, spawn. fold d. rewrite P, L.
    unfold mbind, M_bind, bind, mret, M_ret, ret, Now. rewrite C.
    unfold afterSpawn. by destruct (waitPort env fp 5000 _) as [[] ?| |]. }
  rewrite E, W. destruct ok; cbn [negb].
  - by rewrite startWatcher_new.
  - split; [by apply Hf|done].
Qed.

End Launcher.

Section Handler.

Implicit Types (s : State) (env : Env) (cfg : Config).

Lemma start_stateOf cfg env nm s :
  let s' := stateOf (start cfg env nm s) in
  apps s' = apps s /\ mu s' = mu s /\ clock s <= clock s' /\
  procs s ⊆ procs s' /\
  (length (spawned s') <= S (length (spawned s)))%nat.
Proof.
  pose proof (start_cases cfg env nm s) as H. simpl in H.
  destruct (procfile _ _) as [err|cmdStr].
  { rewrite H. simpl. repeat split; try done; lia. }
  destruct (listen env) as [fp|].
  2: { rewrite H. simpl. repeat split; try done; lia. }
  destruct (startCmd env _ cmdStr fp).
  { rewrite H. simpl. repeat split; try done; lia. }
  destruct H as (ok & e & He & _ & H). destruct ok.
  - rewrite H. simpl. repeat split; try done; try lia.
    apply union_subseteq_l.
  - destruct H as [_ ->]. simpl. repeat split; try done; try lia.
    apply union_subseteq_l.
Qed.

(** [handler] past its two checks, with the mutex free. *)
Lemma handler_routed cfg env host s :
  let nm := appName (domain cfg) host in
  routed cfg env host -> mu s = false ->
  handler cfg env host s =
  match apps s !! nm with
  | Some a => Ret (Proxy (p a)) (setApps <[nm := touched (clock s) a]> s)
  | None =>
      match start cfg env nm (setMu true s) with
      | Ret (inl err) s1 => Ret (Error500 (errorText err)) (setMu false s1)
      | Ret (inr a) s1 =>
          Ret (Proxy (p a))
            (setMu false (setApps <[nm := touched (clock s1) a]> s1))
      | Panic s1 => Panic s1
      | Hang s1 => Hang s1
      end
  end.
Proof.
  intros nm [Hd Hp] Hmu. unfold handler. fold nm.
  unfold handlerDir in Hd, Hp. fold nm in Hd, Hp. rewrite Hd.
  pose proof (start_stateOf cfg env nm (setMu true s)) as (_ & Hm & _).
  assert (E : forall A (m : M A), (Lock ≫= fun _ => m) s = m (setMu true s)).
  { intros A m. unfold mbind, M_bind, bind, Lock. by rewrite Hmu. }
  destruct (stat env (filepath.Join [filepath.Join [root cfg; nm]; "Procfile"]));
    try done; rewrite E; unfold touch; step;
    (destruct (apps s !! nm) as [a|]; simpl;
     [f_equal; by apply State_eq|]);
    (destruct (start cfg env nm (setMu true s)) as [[err|a] s1| |];
     simpl in *; rewrite ?Hm; simpl; try done;
     f_equal; apply State_eq; simpl; try done;
     by rewrite insert_insert_eq).
Qed.

End Handler.

(** X4.  Whatever [start] does, it leaves the registry and the mutex as
    they are, never turns the clock back, stops no running child, and
    starts at most one. *)
Theorem start_keeps_registry cfg env nm s :
  let s' := stateOf (start cfg env nm s) in
  apps s' = apps s /\ mu s' = mu s /\ clock s <= clock s' /\
  procs s ⊆ procs s' /\
  (length (spawned s') <= S (length (spawned s)))%nat.
Proof. apply start_stateOf. Qed.

(** X5.  A launch that fails before the probe (the Procfile cannot be
    opened or has no command, or the child cannot be started) leaves the
    whole state as it was. *)
Theorem start_early_error_unchanged cfg env nm s err s' :
  start cfg env nm s = Ret (inl err) s' ->
  (forall fp, err <> Timeout fp) ->
  s' = s.
Proof.
  intros H Hne. pose proof (start_cases cfg env nm s) as C. simpl in C.
  destruct (procfile _ _) as [err'|cmdStr]; [congruence|].
  destruct (listen env) as [fp|]; [|congruence].
  destruct (startCmd env _ cmdStr fp); [congruence|].
  destruct C as (ok & e & _ & _ & C). destruct ok; [congruence|].
  destruct C as [_ C]. rewrite C in H. injection H as <- _.
  by destruct (Hne fp).
Qed.

Lemma start_early_error_unchanged_witness :
  setClock 7 initial = setClock 7 initial.
Proof.
  apply (start_early_error_unchanged Scenario.cfg Scenario.hello "static"
           (setClock 7 initial)
           (OSError "open /t/static/Procfile: no such file or directory")).
  - reflexivity.
  - discriminate.
Defined.



Lemma handler_dispatch cfg env host s :
  (stat env (handlerDir cfg host) <> StatDir /\
   handler cfg env host s = Ret NotFound s) \/
  (stat env (handlerDir cfg host) = StatDir /\
   stat env (filepath.Join [handlerDir cfg host; "Procfile"]) = StatNotExist /\
   handler cfg env host s = Ret (FileServer (handlerDir cfg host)) s) \/
  routed cfg env host.
Proof.
  unfold routed, handler, handlerDir.
  destruct (stat env (filepath.Join [root cfg; _])) eqn:Hd;
    try (left; split; [congruence|done]).
  destruct (stat env (filepath.Join [filepath.Join [root cfg; _]; _])) eqn:Hp;
    try (right; right; split; congruence).
  right. left. done.
Qed.

(** X7.  A request that is answered with status 500 leaves the registry as
    it was and the mutex free. *)
Theorem handler_error_keeps_registry cfg env host s body s' :
  mu s = false ->
  handler cfg env host s = Ret (Error500 body) s' ->
  apps s' = apps s /\ mu s' = false.
Proof.
  intros Hmu H.
  destruct (handler_dispatch cfg env host s) as [[_ E]|[(_ & _ & E)|R]];
    [congruence|congruence|].
  rewrite (handler_routed cfg env host s R Hmu) in H.
  destruct (apps s !! _); [done|].
  pose proof (start_stateOf cfg env (appName (domain cfg) host) (setMu true s))
    as (Ha & _).
  destruct (start _ _ _ _) as [[err|a] s1| |]; try done.
  injection H as _ <-. simpl in *. done.
Qed.

Lemma handler_error_keeps_registry_witness :
  apps (setClock 5000 (afterSpawn "/t/broken" initial)) = apps initial /\
  mu (setClock 5000 (afterSpawn "/t/broken" initial)) = false.
Proof.
  apply (handler_error_keeps_registry Scenario.cfg Scenario.broken
           "broken.localhost:7777" initial "TIMEOUT 127.0.0.1:40000").
  - reflexivity.
  - vm_compute. reflexivity.
Defined.

(** X8.  A request that is handed to a proxy finds the record of its app
    in the registry afterwards, with the port of that proxy and with the
    time of the request as its time of last use; the mutex is free again,
    and the records of all other names are as they were. *)
Theorem handler_proxy_registers cfg env host s port s' :
  mu s = false ->
  handler cfg env host s = Ret (Proxy port) s' ->
  let nm := appName (domain cfg) host in
  (exists a, apps s' !! nm = Some a /\ p a = port /\ t a = clock s') /\
  mu s' = false /\
  forall k, k <> nm -> apps s' !! k = apps s !! k.
Proof.
  intros Hmu H nm.
  destruct (handler_dispatch cfg env host s) as [[_ E]|[(_ & _ & E)|R]];
    [congruence|congruence|].
  rewrite (handler_routed cfg env host s R Hmu) in H. fold nm in H.
  destruct (apps s !! nm) as [a|] eqn:Ha.
  - injection H as <- <-. simpl. rewrite lookup_insert_eq.
    split; [by eexists|]. split; [done|].
    intros k Hk. by rewrite lookup_insert_ne.
  - pose proof (start_stateOf cfg env nm (setMu true s)) as (Hs & _).
    destruct (start _ _ _ _) as [[err|a] s1| |]; try done.
    injection H as <- <-. simpl in *. rewrite lookup_insert_eq.
    split; [by eexists|]. split; [done|].
    intros k Hk. by rewrite lookup_insert_ne, Hs.
Qed.

Lemma handler_proxy_registers_witness :
  (exists a, apps Scenario.served !! "hello" = Some a /\
             p a = 40000 /\ t a = clock Scenario.served) /\
  mu Scenario.served = false /\
  forall k, k <> "hello" -> apps Scenario.served !! k = apps initial !! k.
Proof.
  apply (handler_proxy_registers Scenario.cfg Scenario.hello
           "hello.localhost:7777" initial 40000 Scenario.served).
  - reflexivity.
  - vm_compute. reflexivity.
Defined.



(** ** Watcher events *)

Section Events.

Implicit Types (s : State) (env : Env) (a : appInfo).

Lemma shrinks_refl s : shrinks s s.
Proof. split; [done|]. by left. Qed.

Lemma shrinks_trans s1 s2 s3 : shrinks s1 s2 -> shrinks s2 s3 -> shrinks s1 s3.
Proof.
  intros [C1 A1] [C2 A2]. split; [congruence|]. intros k.
  destruct (A2 k) as [E|E]; [|by right]. rewrite E. apply A1.
Qed.

Lemma stateOf_bind {A B} (m : M A) (k : A -> M B) s :
  stateOf (bind m k s)
  = match m s with
    | Ret x s1 => stateOf (k x s1)
    | Panic s1 | Hang s1 => s1
    end.
Proof. unfold bind. by destruct (m s). Qed.

Lemma stopApp_shrinks a s : shrinks s (stateOf (stopApp a s)).
Proof.
  destruct (mu s) eqn:Hmu.
  { rewrite stopApp_held by done. apply shrinks_refl. }
  destruct (watcher a) as [w|] eqn:Hw.
  - rewrite (stopApp_free a w) by done. split; [done|]. intros k. simpl.
    destruct (decide (name a = k)) as [<-|Hk].
    + right. apply lookup_delete_eq.
    + left. by apply lookup_delete_ne.
  - unfold stopApp. step. rewrite Hmu, Hw. simpl. split; [done|]. by left.
Qed.

Lemma addRecursive_shrinks env w path s :
  exists s', addRecursive env w path s = Ret tt s' /\ shrinks s s'.
Proof.
  unfold addRecursive. step. eexists. split; [done|].
  destruct (watchers s !! w), (lstat env path); (split; [done|]); by left.
Qed.

Lemma onEvent_shrinks env a w event s :
  shrinks s (stateOf (onEvent env a w event s)).
Proof.
  unfold onEvent. unfold mbind, M_bind. rewrite stateOf_bind.
  assert (H1 : forall (b : bool) s0,
            shrinks s0 (stateOf ((if b then stopApp a else mret tt) s0))).
  { intros [] s0; [apply stopApp_shrinks|apply shrinks_refl]. }
  pose proof (H1 (String.eqb (Name event) (filepath.Join [dir a; ".watch"])) s)
    as Hs1.
  destruct ((if String.eqb _ _ then stopApp a else mret tt) s)
    as [[] s1| |]; try done.
  simpl in Hs1. eapply shrinks_trans; [exact Hs1|].
  rewrite stateOf_bind.
  match goal with |- context [match ?m s1 with _ => _ end] =>
    assert (Hs2 : exists s2, m s1 = Ret tt s2 /\ shrinks s1 s2) end.
  { destruct (Z.land _ _ =? _); [|eexists; split; [done|apply shrinks_refl]].
    destruct (stat env _); try (eexists; split; [done|apply shrinks_refl]).
    destruct (matchInverted _ _);
      [apply addRecursive_shrinks|eexists; split; [done|apply shrinks_refl]]. }
  destruct Hs2 as (s2 & -> & Hs2).
  eapply shrinks_trans; [exact Hs2|]. apply H1.
Qed.

Lemma deliver_shrinks env a event s :
  shrinks s (stateOf (deliver env a event s)).
Proof.
  unfold deliver. destruct (watcher a) as [w|]; [|apply shrinks_refl].
  step. case_decide; [apply onEvent_shrinks|apply shrinks_refl].
Qed.

Lemma wellFormed_shrinks cfg s s' :
  wellFormed cfg s -> shrinks s s' -> wellFormed cfg s'.
Proof.
  intros W [C A] n a Ha. destruct (A n) as [E|E]; [|congruence].
  rewrite E in Ha. rewrite C. by apply W.
Qed.

Lemma handler_held cfg env host s :
  routed cfg env host -> mu s = true -> handler cfg env host s = Hang s.
Proof.
  intros [Hd Hp] Hmu. unfold handler. unfold handlerDir in Hd, Hp.
  rewrite Hd. clear Hd.
  destruct (stat env _); try congruence; step; by rewrite Hmu.
Qed.

Lemma handler_wellFormed cfg env host s :
  wellFormed cfg s -> wellFormed cfg (stateOf (handler cfg env host s)).
Proof.
  intros W.
  destruct (handler_dispatch cfg env host s) as [[_ ->]|[(_ & _ & ->)|R]];
    [done|done|].
  destruct (mu s) eqn:Hmu; [by rewrite handler_held|].
  rewrite (handler_routed cfg env host s R Hmu). clear R.
  remember (appName (domain cfg) host) as nm eqn:Enm. clear Enm.
  destruct (apps s !! nm) as [a|] eqn:Ha.
  - intros n b. simpl. destruct (decide (nm = n)) as [<-|Hn].
    + rewrite lookup_insert_eq. intros [= <-]. simpl.
      destruct (W nm a Ha) as (? & ? & ? & ?). repeat split; try done; lia.
    + rewrite lookup_insert_ne by done. apply W.
  - pose proof (start_cases cfg env nm (setMu true s)) as C. simpl in C.
    assert (Wm : wellFormed cfg (setMu true s)) by exact W.
    destruct (procfile _ _) as [err|cmdStr]; [by rewrite C|].
    destruct (listen env) as [fp|]; [|by rewrite C].
    destruct (startCmd env _ cmdStr fp); [by rewrite C|].
    destruct C as (ok & e & He & _ & C). destruct ok.
    + rewrite C. intros n b. simpl.
      destruct (decide (nm = n)) as [<-|Hn].
      * rewrite lookup_insert_eq. intros [= <-]. simpl.
        repeat split; try done; eauto; lia.
      * rewrite lookup_insert_ne by done. intros Hb.
        destruct (W n b Hb) as (? & ? & ? & ?). repeat split; try done; lia.
    + destruct C as [_ ->]. intros n b. simpl. intros Hb.
      destruct (W n b Hb) as (? & ? & ? & ?). repeat split; try done; lia.
Qed.

End Events.

(** X10.  The registry stays well formed: after a request, after a file
    event, after a stop and after time has passed, every record is still
    registered under its own name, lives in the directory of that name, has
    a watcher (so that [stopApp] can close it), and has a time of last use
    that is not in the future. *)
Theorem registry_stays_wellFormed cfg env host a event d s :
  wellFormed cfg s -> 0 <= d ->
  wellFormed cfg (stateOf (handler cfg env host s)) /\
  wellFormed cfg (stateOf (deliver env a event s)) /\
  wellFormed cfg (stateOf (stopApp a s)) /\
  wellFormed cfg (elapse d s).
Proof.
  intros W Hd. split; [by apply handler_wellFormed|].
  split; [eapply wellFormed_shrinks; [done|apply deliver_shrinks]|].
  split; [eapply wellFormed_shrinks; [done|apply stopApp_shrinks]|].
  intros n b Hb. destruct (W n b Hb) as (? & ? & ? & ?).
  repeat split; try done; simpl; lia.
Qed.

Lemma registry_stays_wellFormed_witness :
  wellFormed Scenario.cfg
    (stateOf (handler Scenario.cfg Scenario.hello "hello.localhost:7777"
                Scenario.served)) /\
  wellFormed Scenario.cfg
    (stateOf (deliver Scenario.hello Scenario.helloApp
                {| Name := "/t/hello/src/a.txt"; Op := 2 |} Scenario.served)) /\
  wellFormed Scenario.cfg (stateOf (stopApp Scenario.helloApp Scenario.served)) /\
  wellFormed Scenario.cfg (elapse 30000 Scenario.served).
Proof.
  apply (registry_stays_wellFormed Scenario.cfg Scenario.hello
           "hello.localhost:7777" Scenario.helloApp
           {| Name := "/t/hello/src/a.txt"; Op := 2 |} 30000 Scenario.served);
    [|lia].
  intros n b.
  change (apps Scenario.served) with (<["hello" := Scenario.helloApp]>
                                        (∅ : gmap string appInfo)).
  destruct (decide ("hello" = n)) as [<-|Hn].
  - rewrite lookup_insert_eq. intros [= <-]. repeat split; done.
  - by rewrite lookup_insert_ne.
Defined.

(** X11.  An event that is not for the [.watch] file, and whose path the
    pattern set does not match or for which there is no pattern set, changes
    nothing: the app keeps running and the watcher observes what it
    observed. *)
Theorem onEvent_unmatched_ignored env a w event s :
  Name event <> filepath.Join [dir a; ".watch"] ->
  ig a = None \/ (exists g, ig a = Some g /\ MatchesPath g (Name event) = false) ->
  onEvent env a w event s = Ret tt s.
Proof.
  intros Hn Hg.
  assert (Hm : matchInverted (Name event) (ig a) = false).
  { destruct Hg as [->|(g & -> & Hg)]; [done|].
    by rewrite matchInverted_MatchesPath. }
  unfold onEvent. rewrite Hm.
  destruct (String.eqb_spec (Name event) (filepath.Join [dir a; ".watch"]));
    [done|].
  destruct (Z.land _ _ =? _); [|done]. by destruct (stat env _).
Qed.

Lemma onEvent_unmatched_ignored_witness :
  onEvent Scenario.hello Scenario.helloApp 0
    {| Name := "/t/hello/README"; Op := Create |} Scenario.served
  = Ret tt Scenario.served.
Proof.
  apply onEvent_unmatched_ignored.
  - vm_compute. discriminate.
  - right. exists Scenario.srcStar. split; reflexivity.
Defined.

(** X12.  An event for the [.watch] file of an app stops the app, whatever
    the kind of the event and whatever the patterns are: the record is
    removed, the child killed and the watcher closed, once. *)
Theorem watch_file_event_stops env a w event s :
  Name event = filepath.Join [dir a; ".watch"] ->
  mu s = false -> watcher a = Some w -> is_Some (watchers s !! w) ->
  deliver env a event s = Ret tt (stopped a w s).
Proof.
  intros Hn Hmu Hw Ho. unfold deliver. rewrite Hw. step.
  rewrite decide_True by done. unfold onEvent. rewrite <- Hn.
  rewrite String.eqb_refl. unfold mbind, M_bind, bind.
  rewrite (stopApp_free a w) by done.
  assert (Hadd : forall path,
            addRecursive env w path (stopped a w s) = Ret tt (stopped a w s)).
  { intros path. unfold addRecursive. step.
    by rewrite lookup_delete_eq. }
  assert (H2 : (if Z.land (Op event) Create =? Create
                then match stat env (Name event) with
                     | StatDir =>
                         if matchInverted (Name event) (ig a)
                         then addRecursive env w (Name event) else mret tt
                     | _ => mret tt
                     end
                else mret tt) (stopped a w s) = Ret tt (stopped a w s)).
  { destruct (Z.land _ _ =? _); [|done].
    destruct (stat env _); try done.
    destruct (matchInverted _ _); [apply Hadd|done]. }
  rewrite H2. destruct (matchInverted _ _); [|done].
  rewrite (stopApp_free a w) by done. f_equal.
  apply stopped_noop; simpl.
  - apply lookup_delete_eq.
  - rewrite elem_of_difference, elem_of_singleton. tauto.
  - apply lookup_delete_eq.
Qed.

Lemma watch_file_event_stops_witness :
  deliver Scenario.hello Scenario.helloApp
    {| Name := "/t/hello/.watch"; Op := 2 |} Scenario.served
  = Ret tt (stopped Scenario.helloApp 0 Scenario.served).
Proof.
  apply watch_file_event_stops; try reflexivity. by eexists.
Defined.

Lemma walkDirs_Dir path nm entries :
  walkDirs path (Dir nm entries)
  = if HasPrefix nm "." then []
    else path :: flat_map
                   (fun e => walkDirs
                               (filepath.Join
                                  [path; match e with
                                         | File x => x
                                         | Dir x _ => x
                                         end]) e) entries.
Proof.
  simpl. by destruct (HasPrefix nm ".").
Qed.

(** X13.  Files, and directories whose name begins with ".", are passed
    over by [addRecursive] with all that is below them: the directories it
    hands to the watcher are the same with or without such an entry. *)
Theorem walkDirs_passes_over path nm before e after :
  passedOver e ->
  walkDirs path (Dir nm (before ++ e :: after))
  = walkDirs path (Dir nm (before ++ after)).
Proof.
  intros He. rewrite !walkDirs_Dir. destruct (HasPrefix nm "."); [done|].
  f_equal. rewrite !flat_map_app. f_equal. simpl.
  destruct e as [x|x sub]; simpl in *; [done|]. by rewrite He.
Qed.

Lemma walkDirs_passes_over_witness :
  walkDirs "/t/hello"
    (Dir "hello" ([File ".watch"; File "Procfile"]
                  ++ Dir ".git" [Dir "objects" []] :: [Dir "src" [File "a.txt"]]))
  = walkDirs "/t/hello"
      (Dir "hello" ([File ".watch"; File "Procfile"] ++ [Dir "src" [File "a.txt"]])).
Proof. apply walkDirs_passes_over. reflexivity. Defined.

(** ** Idle reapers *)

Section Reapers.

Implicit Types (s : State) (cfg : Config).

(** The loop of the reaper of [main.go] over a list of records. *)
Lemma reapInline_loop cfg (l : list (string * appInfo)) s :
  exists s',
    forEach l (sweep cfg) s = Ret tt s' /\
    mu s' = mu s /\ clock s' = clock s /\ watchers s' = watchers s /\
    spawned s' = spawned s /\ nextWatcher s' = nextWatcher s /\
    (forall k,
       apps s' !! k =
       if existsb (fun na => idle cfg (clock s) na.2 && String.eqb na.1 k) l
       then None else apps s !! k) /\
    (forall pid,
       pid ∈ procs s' <->
       pid ∈ procs s /\
       existsb (fun na => idle cfg (clock s) na.2 && Nat.eqb (c na.2) pid) l
       = false).
Proof.
  revert s. induction l as [|[n a] l IH]; intros s.
  { exists s. repeat split; try done. tauto. }
  cbn [forEach]. unfold mbind at 1, M_bind at 1, bind at 1, sweep at 1.
  cbv beta iota. unfold mbind at 1, M_bind at 1, bind at 1, Now.
  destruct (idle cfg (clock s) a) eqn:Hi.
  - unfold mbind at 1, M_bind at 1, bind at 1, Kill, modify.
    match goal with |- context [forEach l _ ?x] =>
      destruct (IH x) as (s' & -> & Hm & Hc & Hw & Hs & Hn & Ha & Hp) end.
    simpl in Hm, Hc, Hw, Hs, Hn, Ha, Hp. exists s'.
    split; [done|]. do 5 (split; [done|]). split.
    + intros k. rewrite Ha. cbn [existsb fst snd]. rewrite Hi. cbn [andb].
      destruct (existsb _ l); [by rewrite orb_true_r|]. rewrite orb_false_r.
      destruct (String.eqb_spec n k) as [->|Hk].
      * apply lookup_delete_eq.
      * by apply lookup_delete_ne.
    + intros pid. rewrite Hp, elem_of_difference, elem_of_singleton.
      cbn [existsb fst snd]. rewrite Hi. cbn [andb].
      rewrite orb_false_iff, Nat.eqb_neq. split.
      * intros [[H1 H2] H3]. split; [done|]. split; [congruence|done].
      * intros [H1 [H2 H3]]. split; [split; [done|congruence]|done].
  - unfold mret, M_ret, ret.
    destruct (IH s) as (s' & -> & Hm & Hc & Hw & Hs & Hn & Ha & Hp).
    exists s'. split; [done|]. do 5 (split; [done|]). split.
    + intros k. rewrite Ha. cbn [existsb fst snd]. by rewrite Hi.
    + intros pid. rewrite Hp. cbn [existsb fst snd]. by rewrite Hi.
Qed.

Lemma existsb_map_key cfg now (m : gmap string appInfo) k :
  existsb (fun na => idle cfg now na.2 && String.eqb na.1 k) (map_to_list m)
  = match m !! k with
    | Some a => idle cfg now a
    | None => false
    end.
Proof.
  apply eq_true_iff_eq. rewrite existsb_exists. split.
  - intros ([n a] & Hin & H). simpl in H.
    apply andb_true_iff in H as [Hi Hk%String.eqb_eq]. subst n.
    apply list_elem_of_In, elem_of_map_to_list in Hin. by rewrite Hin.
  - destruct (m !! k) as [a|] eqn:E; [|done]. intros Hi.
    exists (k, a). split.
    + by apply list_elem_of_In, elem_of_map_to_list.
    + simpl. by rewrite Hi, String.eqb_refl.
Qed.

Lemma existsb_map_pid cfg now (m : gmap string appInfo) pid :
  existsb (fun na => idle cfg now na.2 && Nat.eqb (c na.2) pid) (map_to_list m)
  = true
  <-> exists n a, m !! n = Some a /\ idle cfg now a = true /\ c a = pid.
Proof.
  rewrite existsb_exists. split.
  - intros ([n a] & Hin & H). simpl in H.
    apply andb_true_iff in H as [Hi Hk%Nat.eqb_eq].
    apply list_elem_of_In, elem_of_map_to_list in Hin. eauto.
  - intros (n & a & Ha & Hi & Hc). exists (n, a). split.
    + by apply list_elem_of_In, elem_of_map_to_list.
    + simpl. rewrite Hi. simpl. by apply Nat.eqb_eq.
Qed.

End Reapers.

(** X14.  One tick of the reaper of [main.go], with the mutex free: it
    returns with the mutex free and the clock as it was; exactly the records
    that are idle are removed from the registry; and exactly the children of
    idle records are killed. *)
Theorem reapInline_removes_idle cfg s :
  mu s = false ->
  exists s',
    reapInline cfg s = Ret tt s' /\ mu s' = false /\ clock s' = clock s /\
    (forall n,
       apps s' !! n =
       match apps s !! n with
       | Some a => if idle cfg (clock s) a then None else Some a
       | None => None
       end) /\
    (forall pid,
       pid ∈ procs s' <->
       pid ∈ procs s /\
       ~ exists n a,
           apps s !! n = Some a /\ idle cfg (clock s) a = true /\ c a = pid).
Proof.
  intros Hmu. unfold reapInline.
  unfold mbind at 1, M_bind at 1, bind at 1, Lock. rewrite Hmu.
  unfold mbind at 1, M_bind at 1, bind at 1.
  unfold mbind at 1, M_bind at 1, bind at 1, get.
  destruct (reapInline_loop cfg (map_to_list (apps (setMu true s)))
              (setMu true s))
    as (s' & E & Hm & Hc & Hw & Hs & Hn & Ha & Hp).
  simpl in *.
  match goal with |- context [forEach _ ?f _] =>
    change f with (sweep cfg) end.
  rewrite E. unfold Unlock. rewrite Hm. simpl.
  eexists. split; [done|]. simpl. split; [done|]. split; [done|]. split.
  - intros n. rewrite Ha, existsb_map_key.
    destruct (apps s !! n) as [a|]; [|done]. by destruct (idle cfg _ a).
  - intros pid. rewrite Hp. rewrite <- existsb_map_pid.
    destruct (existsb _ _); split; intros [? ?]; split; done.
Qed.

Lemma reapInline_removes_idle_witness :
  exists s',
    reapInline Scenario.cfg Scenario.idled = Ret tt s' /\ mu s' = false /\
    clock s' = clock Scenario.idled /\
    (forall n,
       apps s' !! n =
       match apps Scenario.idled !! n with
       | Some a => if idle Scenario.cfg (clock Scenario.idled) a then None
                   else Some a
       | None => None
       end) /\
    (forall pid,
       pid ∈ procs s' <->
       pid ∈ procs Scenario.idled /\
       ~ exists n a,
           apps Scenario.idled !! n = Some a /\
           idle Scenario.cfg (clock Scenario.idled) a = true /\ c a = pid).
Proof. apply reapInline_removes_idle. reflexivity. Defined.

(** X15.  One tick of the reaper of [program.run], with the mutex free: if
    no record is idle it returns and changes nothing; if a record is idle it
    blocks for ever with the mutex held and the state as it was. *)
Theorem reap_blocks_iff_idle cfg s :
  mu s = false ->
  (reap cfg s = Ret tt s <->
   forall n a, apps s !! n = Some a -> idle cfg (clock s) a = false) /\
  (reap cfg s = Hang (setMu true s) <->
   exists n a, apps s !! n = Some a /\ idle cfg (clock s) a = true).
Proof.
  intros Hmu.
  destruct (existsb (fun na => idle cfg (clock s) na.2) (map_to_list (apps s)))
    eqn:E.
  - apply existsb_exists in E as ([n a] & Hin & Hi). simpl in Hi.
    apply list_elem_of_In, elem_of_map_to_list in Hin.
    rewrite (reap_idle_hangs cfg s n a Hmu Hin Hi). split.
    + split; [done|]. intros H. by rewrite (H n a Hin) in Hi.
    + split; [eauto|done].
  - assert (H : forall n a, apps s !! n = Some a -> idle cfg (clock s) a = false).
    { intros n a Ha. apply not_true_is_false. intros Hi.
      apply not_true_iff_false in E. apply E, existsb_exists.
      exists (n, a). split; [|done].
      by apply list_elem_of_In, elem_of_map_to_list. }
    rewrite (reap_in_use cfg s Hmu H). split; [done|]. split; [done|].
    intros (n & a & Ha & Hi). by rewrite (H n a Ha) in Hi.
Qed.

Lemma reap_blocks_iff_idle_witness :
  (reap Scenario.cfg Scenario.served = Ret tt Scenario.served <->
   forall n a, apps Scenario.served !! n = Some a ->
               idle Scenario.cfg (clock Scenario.served) a = false) /\
  (reap Scenario.cfg Scenario.served = Hang (setMu true Scenario.served) <->
   exists n a, apps Scenario.served !! n = Some a /\
               idle Scenario.cfg (clock Scenario.served) a = true).
Proof. apply reap_blocks_iff_idle. reflexivity. Defined.

(** ** Names and lines *)

Section Names.

Implicit Types (s a b : string) (c : ascii).

Lemma noByte_app c a b : noByte c a -> noByte c b -> noByte c (a +:+ b).
Proof.
  induction a as [|x a IH]; intros Ha Hb; [done|].
  apply noByte_cons in Ha as [Hx Ha]. rewrite append_cons.
  apply noByte_cons. split; [done|]. by apply IH.
Qed.

Lemma noByte_one c x : x <> c -> noByte c (String x "").
Proof. intros H. apply noByte_cons. split; [done|apply noByte_nil]. Qed.

Lemma Split_whole s c : noByte c s -> Split s c = [s].
Proof.
  induction s as [|x s IH]; intros N; [done|].
  apply noByte_cons in N as [Hx N]. simpl.
  destruct (Ascii.eqb_spec x c) as [|_]; [done|]. by rewrite IH.
Qed.

Lemma Split_at a b c :
  noByte c a -> Split (a +:+ String c b) c = a :: Split b c.
Proof.
  induction a as [|x a IH]; intros N.
  - rewrite append_nil_l. simpl. by rewrite Ascii.eqb_refl.
  - apply noByte_cons in N as [Hx N]. rewrite append_cons. simpl.
    destruct (Ascii.eqb_spec x c) as [|_]; [done|]. by rewrite IH.
Qed.

End Names.

(** X16.  Host headers of the usual form are routed as expected: the
    header made of a label, a ".", the domain and an optional port gives the
    label, and the domain alone with an optional port gives "www". *)
Theorem appName_subdomain dom label rest :
  noByte ":" dom -> noByte ":" label -> label <> "" ->
  rest = "" \/ (exists r, rest = String ":" r) ->
  appName dom (label +:+ "." +:+ dom +:+ rest) = label /\
  appName dom (dom +:+ rest) = "www".
Proof.
  intros Hd Hl Hne Hr. unfold appName, hostField. split.
  - assert (N : noByte ":" (label +:+ "." +:+ dom)).
    { apply noByte_app; [done|]. apply noByte_app; [|done].
      by apply noByte_one. }
    replace (label +:+ "." +:+ dom +:+ rest)
      with ((label +:+ "." +:+ dom) +:+ rest)
      by (by rewrite !append_assoc).
    rewrite (Split_first _ rest ":" N Hr).
    rewrite <- append_assoc, TrimSuffix_app, TrimSuffix_app.
    by destruct (String.eqb_spec label "").
  - rewrite (Split_first dom rest ":" Hd Hr).
    rewrite <- (append_nil_l dom) at 1. by rewrite TrimSuffix_app.
Qed.

Lemma appName_subdomain_witness :
  appName "localhost" ("hello" +:+ "." +:+ "localhost" +:+ ":7777") = "hello" /\
  appName "localhost" ("localhost" +:+ ":7777") = "www".
Proof.
  apply appName_subdomain.
  - by repeat (apply noByte_cons; split); try apply noByte_nil.
  - by repeat (apply noByte_cons; split); try apply noByte_nil.
  - done.
  - right. by eexists.
Defined.

Section Lines.

Implicit Types (l cur rest : string).





End Lines.



(** ** Configuration *)

(** X18.  The second argument of the older [main.go] must contain a ":":
    without one, [main] panics when it reads the port; with one, the text
    before the first ":" is the domain and the text up to the next ":" is
    the port, "80" when that text is empty. *)
Theorem mainConfig_host_argument home prog dirArg hostArg more :
  (mainConfig home (prog :: dirArg :: hostArg :: more) = None
   <-> noByte ":" hostArg) /\
  forall dom port rest,
    noByte ":" dom -> noByte ":" port ->
    rest = "" \/ (exists r, rest = String ":" r) ->
    hostArg = dom +:+ String ":" (port +:+ rest) ->
    mainConfig home (prog :: dirArg :: hostArg :: more)
    = Some (expandHome home dirArg, dom,
            if String.eqb port "" then "80" else port).
Proof.
  assert (P : forall dom port rest,
             noByte ":" dom -> noByte ":" port ->
             rest = "" \/ (exists r, rest = String ":" r) ->
             exists more', Split (dom +:+ String ":" (port +:+ rest)) ":"
                           = dom :: port :: more').
  { intros dom port rest Hd Hp Hr. rewrite Split_at by done.
    destruct Hr as [->|[r ->]].
    - rewrite append_nil_r, Split_whole by done. by eexists.
    - rewrite Split_at by done. by eexists. }
  split.
  - unfold mainConfig. split.
    + intros H a b ->.
      destruct (Split_first_cut b ":") as (rest & E & N & R).
      rewrite E in H.
      destruct (Split_first_cut a ":") as (rest' & E' & N' & R').
      destruct R' as [->|[r' ->]].
      * rewrite append_nil_r in E'.
        destruct (P a (List.hd "" (Split b ":")) rest) as [m Hm]; try done.
        { by rewrite E'. }
        by rewrite Hm in H.
      * rewrite E' in H. rewrite append_assoc, append_cons in H.
        destruct (Split_first_cut (r' +:+ String ":" (List.hd "" (Split b ":") +:+ rest)) ":")
          as (rest2 & E2 & N2 & R2).
        rewrite E2 in H.
        destruct (P _ _ rest2 N' N2 R2) as [m Hm]. by rewrite Hm in H.
    + intros N. by rewrite Split_whole.
  - intros dom port rest Hd Hp Hr ->. unfold mainConfig.
    destruct (P dom port rest Hd Hp Hr) as [m ->]. done.
Qed.

Lemma slice_tail x r : slice (String x r) 1 (len (String x r)) = r.
Proof.
  unfold slice, len. simpl. rewrite Nat.sub_0_r. apply substring_all.
Qed.

Lemma plainElem_noByte (rs : list string) :
  Forall plainElem rs -> Forall (noByte "/") rs.
Proof.
  intros H. eapply Forall_impl; [done|]. by intros e (_ & _ & _ & ?).
Qed.

(** [filepath.Join] of a clean absolute path and a name that begins with a
    separator. *)
Lemma Join_root_slash rs name :
  rs <> [] -> Forall plainElem rs -> plainElem name ->
  filepath.Join ["/" +:+ GoStrings.Join rs "/"; String "/" name]
  = ("/" +:+ GoStrings.Join rs "/") +:+ String "/" name.
Proof.
  intros Hne Hrs Hn.
  assert (Hs : Forall (noByte "/") ((rs ++ [""]) ++ [name])).
  { apply Forall_app. split; [apply Forall_app; split|].
    - by apply plainElem_noByte.
    - constructor; [apply noByte_nil|done].
    - constructor; [apply Hn|done]. }
  assert (E : "/" +:+ GoStrings.Join rs "/" +:+ "/" +:+ String "/" name
              = String "/" (GoStrings.Join ((rs ++ [""]) ++ [name]) "/")).
  { rewrite !Join_snoc by (done || by destruct rs).
    rewrite append_cons, append_nil_l. f_equal.
    by rewrite !append_assoc, !append_cons, !append_nil_l. }
  change (filepath.Join ["/" +:+ GoStrings.Join rs "/"; String "/" name])
    with (filepath.Clean
            ("/" +:+ GoStrings.Join rs "/" +:+ "/" +:+ String "/" name)).
  rewrite E. unfold filepath.Clean.
  change (Ascii.eqb "/" "/") with true. cbv iota. cbn [Split].
  change (Ascii.eqb "/" "/") with true. cbv iota.
  rewrite Split_Join by (done || by destruct rs).
  cbn [filepath.cleanElems String.eqb orb].
  rewrite <- app_assoc, cleanElems_plain by done.
  rewrite app_nil_r. cbn [app filepath.cleanElems String.eqb orb].
  apply plainElem_eqb in Hn as (E1 & E2 & E3). rewrite E1, E2, E3.
  cbn [orb rev]. rewrite rev_involutive, Join_snoc by done.
  by rewrite append_cons.
Qed.

(** X19.  A root that begins with "~" is put below the home directory,
    whatever follows the "~": both "~/name" and "~name" become the directory
    [name] in the home directory; a root without "~" is taken as it is. *)
Theorem expandHome_below_home rs name r :
  rs <> [] -> Forall plainElem rs -> plainElem name ->
  HasPrefix r "~" = false ->
  let home := "/" +:+ GoStrings.Join rs "/" in
  expandHome home ("~/" +:+ name) = home +:+ String "/" name /\
  expandHome home ("~" +:+ name) = home +:+ String "/" name /\
  expandHome home r = r.
Proof.
  intros Hne Hrs Hn Hr home. unfold expandHome. rewrite Hr.
  split; [|split; [|done]].
  - change (HasPrefix ("~/" +:+ name) "~") with true. cbv iota.
    change ("~/" +:+ name) with (String "~" (String "/" name)).
    rewrite slice_tail. by apply Join_root_slash.
  - change ("~" +:+ name) with (String "~" name).
    assert (HasPrefix (String "~" name) "~" = true) as ->.
    { apply HasPrefix_spec. by exists name. }
    rewrite slice_tail. unfold home.
    destruct Hn as (H0 & H1 & H2 & H3).
    rewrite Join_root_name by done.
    by rewrite !decide_False by done.
Qed.

Lemma expandHome_below_home_witness :
  let home := "/" +:+ GoStrings.Join ["home"; "u"] "/" in
  expandHome home ("~/" +:+ "Web") = home +:+ String "/" "Web" /\
  expandHome home ("~" +:+ "Web") = home +:+ String "/" "Web" /\
  expandHome home "./apps" = "./apps".
Proof.
  apply (expandHome_below_home ["home"; "u"] "Web" "./apps").
  - done.
  - repeat constructor; try done;
      by repeat (apply noByte_cons; split); try apply noByte_nil.
  - repeat split; try done.
    by repeat (apply noByte_cons; split); try apply noByte_nil.
  - reflexivity.
Defined.

(** ** The command of the Procfile *)

Section Trim.

Implicit Types (s a x : string).

Lemma spaceRunes_len r : In r spaceRunes -> (1 <= len r)%nat.
Proof.
  revert r. apply List.Forall_forall. unfold spaceRunes.
  repeat (constructor; [vm_compute; lia|]). constructor.
Qed.

Lemma length_substring n m s :
  (n + m <= String.length s)%nat -> String.length (String.substring n m s) = m.
Proof.
  revert n m. induction s as [|c s IH]; intros [|n] [|m] H; simpl in *;
    try done; try lia.
  - f_equal. apply (IH 0%nat). lia.
  - apply IH. lia.
  - apply IH. lia.
Qed.

Lemma leadingSpace_Some s w :
  leadingSpace s = Some w -> (1 <= w <= len s)%nat.
Proof.
  unfold leadingSpace. destruct (List.find _ _) as [r|] eqn:E; [|done].
  intros [= <-]. apply find_some in E as [Hin Hp].
  split; [by apply spaceRunes_len|].
  unfold HasPrefix in Hp. apply andb_true_iff in Hp as [Hp _].
  by apply Nat.leb_le.
Qed.

Lemma trailingSpace_Some s w :
  trailingSpace s = Some w -> (1 <= w <= len s)%nat.
Proof.
  unfold trailingSpace. destruct (List.find _ _) as [r|] eqn:E; [|done].
  intros [= <-]. apply find_some in E as [Hin Hp].
  split; [by apply spaceRunes_len|].
  unfold HasSuffix in Hp. apply andb_true_iff in Hp as [Hp _].
  by apply Nat.leb_le.
Qed.

Lemma trimLeft_done fuel s :
  (len s <= fuel)%nat -> leadingSpace (trimLeft fuel s) = None.
Proof.
  revert s. induction fuel as [|k IH]; intros s H; simpl.
  - destruct s; [done|]. unfold len in H. simpl in H. lia.
  - destruct (leadingSpace s) as [w|] eqn:E; [|done].
    apply leadingSpace_Some in E. apply IH. unfold slice, len in *.
    rewrite length_substring; lia.
Qed.

Lemma trimRight_done fuel s :
  (len s <= fuel)%nat -> trailingSpace (trimRight fuel s) = None.
Proof.
  revert s. induction fuel as [|k IH]; intros s H; simpl.
  - destruct s; [done|]. unfold len in H. simpl in H. lia.
  - destruct (trailingSpace s) as [w|] eqn:E; [|done].
    apply trailingSpace_Some in E. apply IH. unfold slice, len in *.
    rewrite length_substring; lia.
Qed.

Lemma trimRight_prefix fuel s : exists x, s = trimRight fuel s +:+ x.
Proof.
  revert s. induction fuel as [|k IH]; intros s; simpl.
  - exists "". by rewrite append_nil_r.
  - destruct (trailingSpace s) as [w|] eqn:E.
    + apply trailingSpace_Some in E.
      destruct (IH (slice s 0 (len s - w))) as [x Hx].
      exists (x +:+ String.substring (len s - w) (len s - (len s - w)) s).
      rewrite <- append_assoc, <- Hx. unfold slice. rewrite Nat.sub_0_r.
      apply substring_cut. unfold len. lia.
    + exists "". by rewrite append_nil_r.
Qed.

Lemma leadingSpace_prefix a x :
  leadingSpace (a +:+ x) = None -> leadingSpace a = None.
Proof.
  unfold leadingSpace. destruct (List.find _ _) as [r|] eqn:E; [done|].
  intros _. destruct (List.find (fun r => HasPrefix a r) _) as [r|] eqn:F;
    [|done].
  apply find_some in F as [Hin Hp].
  apply HasPrefix_spec in Hp as [b ->].
  assert (Hp : HasPrefix ((r +:+ b) +:+ x) r = true).
  { apply HasPrefix_spec. exists (b +:+ x). by rewrite append_assoc. }
  pose proof (find_none _ _ E r Hin) as Hf. simpl in Hf. congruence.
Qed.

Lemma trimLeft_id fuel s : leadingSpace s = None -> trimLeft fuel s = s.
Proof. intros E. destruct fuel; [done|]. simpl. by rewrite E. Qed.

Lemma trimRight_id fuel s : trailingSpace s = None -> trimRight fuel s = s.
Proof. intros E. destruct fuel; [done|]. simpl. by rewrite E. Qed.

Lemma TrimSpace_trimmed s :
  leadingSpace (TrimSpace s) = None /\ trailingSpace (TrimSpace s) = None.
Proof.
  unfold TrimSpace. split.
  - destruct (trimRight_prefix (len (trimLeft (len s) s)) (trimLeft (len s) s))
      as [x Hx].
    apply (leadingSpace_prefix _ x). rewrite <- Hx. by apply trimLeft_done.
  - by apply trimRight_done.
Qed.

End Trim.

(** X20.  The command the Procfile reader returns is not empty and has no
    white space left at either end, and trimming it again changes
    nothing. *)
Theorem procfile_command_trimmed opened d cmdStr :
  procfile opened d = inr cmdStr ->
  cmdStr <> "" /\
  leadingSpace cmdStr = None /\ trailingSpace cmdStr = None /\
  TrimSpace cmdStr = cmdStr.
Proof.
  unfold procfile. destruct opened as [content|text]; [|done].
  destruct (String.eqb_spec (webCommand (scanLines "" content)) "") as [|Hne];
    [done|].
  intros [= <-]. split; [done|].
  assert (H : leadingSpace (webCommand (scanLines "" content)) = None /\
              trailingSpace (webCommand (scanLines "" content)) = None).
  { induction (scanLines "" content) as [|l ls IH]; [done|]. simpl in *.
    destruct (HasPrefix l "web:"); [apply TrimSpace_trimmed|by apply IH]. }
  destruct H as [H1 H2]. split; [done|]. split; [done|].
  unfold TrimSpace. rewrite trimLeft_id by done. by apply trimRight_id.
Qed.

Lemma procfile_command_trimmed_witness :
  "./start.sh $PORT" <> "" /\
  leadingSpace "./start.sh $PORT" = None /\
  trailingSpace "./start.sh $PORT" = None /\
  TrimSpace "./start.sh $PORT" = "./start.sh $PORT".
Proof.
  apply (procfile_command_trimmed
           (inl ("# app" +:+ String LF ("web:  ./start.sh $PORT " +:+ CR
                                        +:+ String LF "web: other")))
           "/t/hello").
  vm_compute. reflexivity.
Defined.

(** ** Requests without a launch, and after a stop *)

(** X21.  A request for a directory that does not exist is answered with
    404, and a request for a directory without Procfile is served from the
    directory; neither takes the mutex or changes the state, so both are
    answered even while the mutex is held. *)
Theorem handler_without_mutex cfg env host s :
  (stat env (handlerDir cfg host) <> StatDir ->
   handler cfg env host s = Ret NotFound s) /\
  (stat env (handlerDir cfg host) = StatDir ->
   stat env (filepath.Join [handlerDir cfg host; "Procfile"]) = StatNotExist ->
   handler cfg env host s = Ret (FileServer (handlerDir cfg host)) s).
Proof.
  destruct (handler_dispatch cfg env host s)
    as [[H E]|[(H1 & H2 & E)|[H1 H2]]]; split; try done; congruence.
Qed.



(** X23.  [stopApp] deletes by name.  Called with a record that is no
    longer the registered one (the name was launched again since), it
    removes the record that is registered now, but it kills only the child
    and closes only the watcher of the record it was called with: the child
    and the watcher of the removed record stay. *)
Theorem stopApp_stale_record a b w wb s :
  mu s = false -> watcher a = Some w ->
  apps s !! name a = Some b -> watcher b = Some wb ->
  c b <> c a -> wb <> w ->
  exists s',
    stopApp a s = Ret tt s' /\
    apps s' !! name a = None /\
    (c b ∈ procs s' <-> c b ∈ procs s) /\
    watchers s' !! wb = watchers s !! wb.
Proof.
  intros Hmu Hw Hb Hwb Hc Hne. exists (stopped a w s).
  split; [by apply stopApp_free|]. simpl.
  split; [apply lookup_delete_eq|]. split.
  - rewrite elem_of_difference, elem_of_singleton. tauto.
  - by apply lookup_delete_ne.
Qed.

Lemma stopApp_stale_record_witness :
  exists s',
    stopApp (touched 0 Scenario.helloApp)
      (setApps <["hello" := {| name := "hello"; dir := "/t/hello"; p := 40001;
                               c := 1; t := 9; watcher := Some 1%nat;
                               ig := None |}]>
         (setProcs (fun ps => ps ∪ {[1%nat]}) Scenario.served))
    = Ret tt s' /\
    apps s' !! name (touched 0 Scenario.helloApp) = None /\
    (1%nat ∈ procs s' <->
     1%nat ∈ procs (setApps <["hello" := {| name := "hello"; dir := "/t/hello";
                                            p := 40001; c := 1; t := 9;
                                            watcher := Some 1%nat;
                                            ig := None |}]>
                      (setProcs (fun ps => ps ∪ {[1%nat]}) Scenario.served))) /\
    watchers s' !! 1%nat
    = watchers (setApps <["hello" := {| name := "hello"; dir := "/t/hello";
                                        p := 40001; c := 1; t := 9;
                                        watcher := Some 1%nat;
                                        ig := None |}]>
                  (setProcs (fun ps => ps ∪ {[1%nat]}) Scenario.served))
      !! 1%nat.
Proof.
  apply (stopApp_stale_record (touched 0 Scenario.helloApp)
           {| name := "hello"; dir := "/t/hello"; p := 40001; c := 1; t := 9;
              watcher := Some 1%nat; ig := None |} 0%nat 1%nat);
    try reflexivity; discriminate.
Defined.
